(** * Metronome tone generator: [generate_metronome_sounds.py]

    A shallow embedding of the script: the synthesizer
    [generate_sine_wave], the writer [create_wav_file] and the driver
    [main], and the properties its specification states about them.

    Numbers.  Python's [int] is [Z].  Python's [float] is an IEEE binary64
    number, [spec_float] with the precision and the exponent range of
    [FloatOps]: every product and quotient of the script is the correctly
    rounded one, an infinity or a NaN is a value like any other, and the
    conversions raise what the interpreter raises ([OverflowError] for an
    int too large for a float and for [int] of an infinity, [ValueError]
    for [int] of a NaN).  [frequency], [duration] and [amplitude] are
    floats, [sample_rate] is an int.  [math.sin] comes from the platform's
    C library: its values on finite arguments are a parameter of the
    development.

    Effects.  Exceptions are an error monad ([result]); the file system is
    an explicit state, a finite map from paths to file contents.

    Libraries.  [struct.pack] is modelled on its documented behaviour; the
    [wave] module, which writes the container, is modelled from the layout
    the specification gives. *)

From Stdlib Require Import ZArith QArith Qround List Lia Lqa Bool.
From Stdlib Require Import Strings.Byte Floats.
From stdpp Require Import gmap strings.
Import ListNotations.

Set Warnings "-inexact-float".
Local Open Scope Z_scope.

(** ** Exceptions *)

Inductive exn : Set :=
| ZeroDivisionError   (* int / int with a zero divisor *)
| ValueError          (* int(nan); math.sin of an infinity *)
| OverflowError       (* int(inf); an int or a quotient too large for a float *)
| StructError         (* struct.pack: value out of the format's range *)
| WaveError           (* wave.Error: a parameter the writer refuses *)
| OSError.            (* open(): the path cannot be opened for writing *)

Inductive result (A : Type) : Type :=
| Ok (a : A)
| Raise (e : exn).
Arguments Ok {A} a.
Arguments Raise {A} e.

Definition bind {A B} (m : result A) (k : A -> result B) : result B :=
  match m with
  | Ok a => k a
  | Raise e => Raise e
  end.

Notation "'do' x <- m ; k" := (bind m (fun x => k))
  (at level 10, x name, m at level 100, k at level 200).

(** A [for] loop that appends one item per iteration, or stops at the first
    exception. *)
Fixpoint for_each {A B} (body : A -> result B) (l : list A) : result (list B) :=
  match l with
  | [] => Ok []
  | a :: l' =>
      do b <- body a;
      do bs <- for_each body l';
      Ok (b :: bs)
  end.

(** ** Python numbers *)

(** A Python float: an IEEE binary64 number. *)
Definition f64 : Set := spec_float.

(** A float literal of the script. *)
Definition b64 (x : float) : f64 := Prim2SF x.

(** [x * y] on two floats. *)
Definition fmul (x y : f64) : f64 := SFmul prec emax x y.

(** An int as it stands, before any rounding. *)
Definition exact_int (z : Z) : f64 :=
  match z with
  | Z0 => S754_zero false
  | Zpos p => S754_finite false p 0
  | Zneg p => S754_finite true p 0
  end.

(** The float an int becomes when it meets a float ([int * float]): the
    nearest one, or [OverflowError]. *)
Definition float_of_int (z : Z) : result f64 :=
  match binary_normalize prec emax z 0 false with
  | S754_infinity _ => Raise OverflowError
  | x => Ok x
  end.

(** The rational a float holds (0 for an infinity or a NaN). *)
Definition f64_value (x : f64) : Q :=
  match x with
  | S754_finite s m e =>
      let a := if 0 <=? e then inject_Z (Zpos m * 2 ^ e)
               else Zpos m # Z.to_pos (2 ^ (- e)) in
      if s then (- a)%Q else a
  | _ => 0%Q
  end.

(** Truncation toward zero. *)
Definition truncate (x : Q) : Z := Z.quot (Qnum x) (Zpos (Qden x)).

(** [int(x)] of a float: truncation toward zero. *)
Definition int (x : f64) : result Z :=
  match x with
  | S754_nan => Raise ValueError
  | S754_infinity _ => Raise OverflowError
  | _ => Ok (truncate (f64_value x))
  end.

(** The correctly rounded quotient of two ints. *)
Definition quotient (a b : Z) : f64 :=
  SFdiv prec emax (exact_int a) (exact_int b).

(** [a / b] on two ints: true division. *)
Definition truediv (a b : Z) : result f64 :=
  if b =? 0 then Raise ZeroDivisionError
  else
    match quotient a b with
    | S754_infinity _ => Raise OverflowError
    | q => Ok q
    end.

(** [range(n)]: 0, 1, ..., n-1; empty when n <= 0. *)
Definition range (n : Z) : list Z := map Z.of_nat (seq 0 (Z.to_nat n)).

(** [math.pi]. *)
Definition math_pi : f64 := b64 3.141592653589793.

(** ** Bytes and [struct.pack] *)

Definition bytes := list byte.

Definition byte_of_Z (z : Z) : byte :=
  match Byte.of_N (Z.to_N (z mod 256)) with
  | Some b => b
  | None => x00
  end.

Definition Z_of_byte (b : byte) : Z := Z.of_N (Byte.to_N b).

(** The [n] low bytes of [v], least significant first; a negative [v] comes
    out in two's complement. *)
Fixpoint le_bytes (n : nat) (v : Z) : bytes :=
  match n with
  | O => []
  | S n' => byte_of_Z v :: le_bytes n' (v / 256)
  end.

(** The unsigned value of a little-endian byte string. *)
Fixpoint le_value (bs : bytes) : Z :=
  match bs with
  | [] => 0
  | b :: bs' => Z_of_byte b + 256 * le_value bs'
  end.

(** [struct.pack('<h', v)]: two bytes, or [struct.error] outside the range
    of a signed 16-bit integer. *)
Definition struct_pack_h (v : Z) : result bytes :=
  if (-32768 <=? v) && (v <=? 32767) then Ok (le_bytes 2 v)
  else Raise StructError.

(** [struct.unpack('<h', [b0; b1])]. *)
Definition struct_unpack_h (b0 b1 : byte) : Z :=
  let u := le_value [b0; b1] in
  if u <? 32768 then u else u - 65536.

(** The 16-bit samples held by a buffer, in order. *)
Fixpoint unpack_samples (buf : bytes) : list Z :=
  match buf with
  | b0 :: b1 :: rest => struct_unpack_h b0 b1 :: unpack_samples rest
  | _ => []
  end.

(** ** The synthesizer: [generate_sine_wave] *)

(** The three cases of the envelope: the fade-in ramp, the fade-out ramp, and
    neither (factor 1.0). *)
Inductive ramp : Set := fade_in | fade_out | sustain.

(** Line 24: [num_samples = int(sample_rate * duration)]. *)
Definition num_samples (sample_rate : Z) (duration : f64) : result Z :=
  do rate <- float_of_int sample_rate;
  int (fmul rate duration).

(** Line 34: [fade_samples = int(sample_rate * 0.005)]. *)
Definition fade_samples (sample_rate : Z) : result Z :=
  do rate <- float_of_int sample_rate;
  int (fmul rate (b64 0.005)).

(** Lines 36-39: which branch of the [if]/[elif] sample [i] takes; the
    [elif] is only tried when the [if] has failed. *)
Definition ramp_of (fade_samples num_samples i : Z) : ramp :=
  if i <? fade_samples then fade_in
  else if i >? num_samples - fade_samples then fade_out
  else sustain.

(** Lines 33-39: the envelope factor of sample [i]. *)
Definition envelope (sample_rate num_samples i : Z) : result f64 :=
  do fade_samples <- fade_samples sample_rate;
  match ramp_of fade_samples num_samples i with
  | fade_in => truediv i fade_samples
  | fade_out => truediv (num_samples - i) fade_samples
  | sustain => Ok (b64 1.0)
  end.

Section Synthesizer.

(** The sine of the C library, on finite arguments. *)
Variable libm_sin : f64 -> f64.

(** [math.sin]: an infinity is a domain error, a NaN goes through. *)
Definition math_sin (x : f64) : result f64 :=
  match x with
  | S754_infinity _ => Raise ValueError
  | S754_nan => Ok S754_nan
  | _ => Ok (libm_sin x)
  end.

(** Lines 29-44: the loop body up to the 16-bit value of sample [i]. *)
Definition pcm_value (frequency : f64) (sample_rate : Z) (amplitude : f64)
    (num_samples i : Z) : result Z :=
  do t <- truediv i sample_rate;
  do sine <- math_sin (fmul (fmul (fmul (b64 2) math_pi) frequency) t);
  let sample := fmul amplitude sine in
  do envelope <- envelope sample_rate num_samples i;
  let sample := fmul sample envelope in
  int (fmul sample (b64 32767)).

Definition generate_sine_wave (frequency duration : f64) (sample_rate : Z)
    (amplitude : f64) : result bytes :=
  do num_samples <- num_samples sample_rate duration;
  do samples <-
    for_each (fun i =>
                do pcm_value <- pcm_value frequency sample_rate amplitude
                                  num_samples i;
                struct_pack_h pcm_value)
             (range num_samples);
  Ok (concat samples).

End Synthesizer.

(** The script's defaults: [sample_rate=44100], [amplitude=0.5]. *)
Definition default_sample_rate : Z := 44100.
Definition default_amplitude : f64 := b64 0.5.

(** ** The container writer *)

(** [struct.pack] of an unsigned field of [n] bytes ('<H' is 2, '<L' is 4):
    [struct.error] when the value does not fit. *)
Definition pack_uint (n : nat) (v : Z) : result bytes :=
  if (0 <=? v) && (v <? 256 ^ Z.of_nat n) then Ok (le_bytes n v)
  else Raise StructError.

Definition tag_RIFF : bytes := ["R"; "I"; "F"; "F"]%byte.
Definition tag_WAVE : bytes := ["W"; "A"; "V"; "E"]%byte.
Definition tag_fmt  : bytes := ["f"; "m"; "t"; " "]%byte.
Definition tag_data : bytes := ["d"; "a"; "t"; "a"]%byte.

(** The format tag of uncompressed PCM. *)
Definition WAVE_FORMAT_PCM : Z := 1.

(** Modelled from the spec: the container writer of section 4.2.  The script
    delegates it to Python's [wave] module ([setnchannels], [setsampwidth],
    [setframerate], [writeframes], close), which is not part of the
    repository.  The result is the content of the file once it is closed: the
    fixed 44-byte header (format tag, channel count, sample rate, byte rate =
    rate x channels x width, block alignment = channels x width, bits per
    sample = width x 8, and the two length fields: 36 + data length and data
    length) followed by the sample bytes as given.  The module refuses a
    channel count below 1, a sample width outside 1..4 and a frame rate that
    is not positive; a field that does not fit its width is a packing
    error. *)
Definition write_container (channel_count sample_width_bytes sample_rate_hz : Z)
    (data : bytes) : result bytes :=
  if channel_count <? 1 then Raise WaveError
  else if (sample_width_bytes <? 1) || (sample_width_bytes >? 4) then Raise WaveError
  else if sample_rate_hz <=? 0 then Raise WaveError
  else
    let datalength := Z.of_nat (length data) in
    do riff_size   <- pack_uint 4 (36 + datalength);
    do fmt_size    <- pack_uint 4 16;
    do format_tag  <- pack_uint 2 WAVE_FORMAT_PCM;
    do channels    <- pack_uint 2 channel_count;
    do rate        <- pack_uint 4 sample_rate_hz;
    do byte_rate   <- pack_uint 4 (channel_count * sample_rate_hz * sample_width_bytes);
    do block_align <- pack_uint 2 (channel_count * sample_width_bytes);
    do bits        <- pack_uint 2 (sample_width_bytes * 8);
    do data_size   <- pack_uint 4 datalength;
    Ok (tag_RIFF ++ riff_size ++ tag_WAVE ++
        tag_fmt ++ fmt_size ++ format_tag ++ channels ++ rate ++ byte_rate ++
        block_align ++ bits ++
        tag_data ++ data_size ++ data).

(** The bytes [off .. off+len) of a file. *)
Definition slice (off len : nat) (file : bytes) : bytes :=
  firstn len (skipn off file).

(** The data length a container's header declares (offset 40, 4 bytes). *)
Definition declared_data_length (file : bytes) : Z :=
  le_value (slice 40 4 file).

(** The total size a container's header declares (offset 4, 4 bytes). *)
Definition declared_riff_size (file : bytes) : Z :=
  le_value (slice 4 4 file).

Fixpoint bytes_eqb (a b : bytes) : bool :=
  match a, b with
  | [], [] => true
  | x :: a', y :: b' => Byte.eqb x y && bytes_eqb a' b'
  | _, _ => false
  end.

Record container := {
  c_channels : Z;
  c_sample_width : Z;
  c_sample_rate : Z;
  c_frames : bytes
}.

(** Modelled from the spec: the "standard reader" of the round-trip property
    of section 8, for the layout of section 4.2.  It checks the four tags,
    the size of the format chunk and the PCM format tag, and returns the
    channel count, the sample width, the sample rate and the payload of the
    declared data length. *)
Definition read_container (file : bytes) : option container :=
  if bytes_eqb (slice 0 4 file) tag_RIFF
     && bytes_eqb (slice 8 4 file) tag_WAVE
     && bytes_eqb (slice 12 4 file) tag_fmt
     && (le_value (slice 16 4 file) =? 16)
     && (le_value (slice 20 2 file) =? WAVE_FORMAT_PCM)
     && bytes_eqb (slice 36 4 file) tag_data
     && (44 + declared_data_length file <=? Z.of_nat (length file))
  then
    Some {| c_channels := le_value (slice 22 2 file);
            c_sample_width := le_value (slice 34 2 file) / 8;
            c_sample_rate := le_value (slice 24 4 file);
            c_frames := slice 44 (Z.to_nat (declared_data_length file)) file |}
  else None.

(** ** The file system and [create_wav_file] *)

(** The files by path, and which paths [open(path, 'wb')] accepts (the parent
    directory exists and is writable). *)
Record file_system := {
  files : gmap string bytes;
  writable : string -> bool
}.

Definition write_file (fs : file_system) (path : string) (content : bytes)
    : file_system :=
  {| files := <[path := content]> (files fs); writable := writable fs |}.

Section Writer.

Variable libm_sin : f64 -> f64.

(** Lines 49-68.  The tone is generated first, then the file is opened,
    written with one channel and two bytes per sample, and closed.  The
    result is the file system after a successful run; on an exception the
    state of the file is left open (truncated or absent), as in the
    spec.  The progress line printed at the end is not modelled. *)
Definition create_wav_file (fs : file_system) (filename : string)
    (frequency duration : f64) (sample_rate : Z) : result file_system :=
  do audio_data <-
    generate_sine_wave libm_sin frequency duration sample_rate
      default_amplitude;
  if writable fs filename then
    do file <- write_container 1 2 sample_rate audio_data;
    Ok (write_file fs filename file)
  else Raise OSError.


End Writer.

(** ** A sine to run the model with

    Bhaskara's approximation of the sine in binary64 arithmetic, after
    reduction of the argument to one period, and kept within [-1, 1].  It
    stands for the C library's sine wherever the model is evaluated on
    concrete tones. *)

Definition fsub (x y : f64) : f64 := SFsub prec emax x y.
Definition fdiv (x y : f64) : f64 := SFdiv prec emax x y.

Definition finite (x : f64) : bool :=
  match x with
  | S754_zero _ | S754_finite _ _ _ => true
  | _ => false
  end.

(** [m * 2^e <= b] and [b <= m * 2^e], on integers. *)
Definition mag_le (m e b : Z) : bool :=
  if 0 <=? e then m * 2 ^ e <=? b else m <=? b * 2 ^ (- e).

Definition mag_ge (m e b : Z) : bool :=
  if 0 <=? e then b <=? m * 2 ^ e else b * 2 ^ (- e) <=? m.

(** [|x| <= b], for a finite [x]. *)
Definition within (b : Z) (x : f64) : bool :=
  match x with
  | S754_zero _ => 0 <=? b
  | S754_finite _ m e => mag_le (Zpos m) e b
  | _ => false
  end.

(** [b <= |x|], infinities included. *)
Definition at_least (b : Z) (x : f64) : bool :=
  match x with
  | S754_zero _ => b <=? 0
  | S754_finite _ m e => mag_ge (Zpos m) e b
  | S754_infinity _ => true
  | S754_nan => false
  end.

(** A finite float the format holds: 53 bits at most, exponent at most
    971. *)
Definition in_format (x : f64) : bool :=
  match x with
  | S754_zero _ => true
  | S754_finite _ m e => (Zpos m <? 2 ^ 53) && (e <=? 971)
  | _ => false
  end.

(** The magnitude of a finite float, truncated. *)
Definition int_magnitude (m : positive) (e : Z) : Z :=
  if 0 <=? e then Zpos m * 2 ^ e else Zpos m / 2 ^ (- e).

(** The sign bit. *)
Definition sign_of (x : f64) : option bool :=
  match x with
  | S754_zero s | S754_finite s _ _ | S754_infinity s => Some s
  | S754_nan => None
  end.

Definition bhaskara (y : f64) : f64 :=
  let p := fmul y (fsub math_pi y) in
  fdiv (fmul (b64 16) p)
       (fsub (fmul (b64 5) (fmul math_pi math_pi)) (fmul (b64 4) p)).

Definition sin_approx (x : f64) : f64 :=
  let period := fmul (b64 2) math_pi in
  match int (fdiv x period) with
  | Ok k =>
      match float_of_int k with
      | Ok turns =>
          let r := fsub x (fmul turns period) in
          let y := if SFleb r math_pi then bhaskara r
                   else SFopp (bhaskara (fsub r math_pi)) in
          if within 1 y then y else S754_zero false
      | Raise _ => S754_zero false
      end
  | Raise _ => S754_zero false
  end.

(** ** Rounding, step by step *)

(** A shift record that has lost no bit. *)
Definition exact_rec (mrs : shr_record) : Prop :=
  shr_r mrs = false /\ shr_s mrs = false.

(** What rounding leaves of a mantissa [m1] at exponent [e1]: at most one
    more shift, then the test for overflow. *)
Definition finish (s : bool) (m1 e1 : Z) : f64 :=
  let e2 := Z.max e1 (fexp prec emax (Zdigits2 m1 + e1)) in
  match m1 / 2 ^ (e2 - e1) with
  | Z0 => S754_zero s
  | Zpos m => if e2 <=? emax - prec then S754_finite s m e2 else S754_infinity s
  | Zneg _ => S754_nan
  end.

(** ** Vocabulary of the specification *)

(** What is assumed of the C library's sine: on a finite argument, a value
    in [-1, 1]. *)
Definition sine_in_range (libm_sin : f64 -> f64) : Prop :=
  forall x, finite x = true -> within 1 (libm_sin x) = true.

(** The preconditions of section 4.1. *)
Definition valid_input (frequency duration : f64) (sample_rate : Z)
    (amplitude : f64) : Prop :=
  finite frequency = true /\ (0 < f64_value frequency)%Q /\
  finite duration = true /\ (0 < f64_value duration)%Q /\
  0 < sample_rate /\
  finite amplitude = true /\ (0 <= f64_value amplitude <= 1)%Q.

(** The spec's [round]: the nearest integer, a tie going to the even one
    (Python's [round]). *)
Definition round_half_even (x : Q) : Z :=
  let f := Qfloor x in
  match (x - inject_Z f ?= 1 # 2)%Q with
  | Lt => f
  | Gt => f + 1
  | Eq => if Z.even f then f else f + 1
  end.

(** The number of 16-bit samples of a generated buffer. *)
Definition sample_count (r : result bytes) : result Z :=
  do buf <- r; Ok (Z.of_nat (length (unpack_samples buf))).

(** Every field of the header fits the width the layout gives it. *)
Definition header_fits (channel_count sample_width_bytes sample_rate_hz : Z)
    (data : bytes) : Prop :=
  1 <= channel_count < 65536 /\
  1 <= sample_width_bytes <= 4 /\
  0 < sample_rate_hz < 4294967296 /\
  channel_count * sample_rate_hz * sample_width_bytes < 4294967296 /\
  channel_count * sample_width_bytes < 65536 /\
  36 + Z.of_nat (length data) < 4294967296.

(** The 44 bytes of the header, for a data length. *)
Definition header_of (channel_count sample_width_bytes sample_rate_hz : Z)
    (datalength : Z) : bytes :=
  tag_RIFF ++ le_bytes 4 (36 + datalength) ++ tag_WAVE ++
  tag_fmt ++ le_bytes 4 16 ++ le_bytes 2 WAVE_FORMAT_PCM ++
  le_bytes 2 channel_count ++ le_bytes 4 sample_rate_hz ++
  le_bytes 4 (channel_count * sample_rate_hz * sample_width_bytes) ++
  le_bytes 2 (channel_count * sample_width_bytes) ++
  le_bytes 2 (sample_width_bytes * 8) ++
  tag_data ++ le_bytes 4 datalength.

(** Two file systems to run the writer in, and the state a run leaves. *)
Definition empty_disk : file_system :=
  {| files := ∅; writable := fun _ => true |}.

Definition used_disk : file_system :=
  {| files := {[ "tick.wav"%string := [x00; x01] ]}; writable := fun _ => true |}.

Definition after (fs : file_system) (r : result file_system) : file_system :=
  match r with
  | Ok fs' => fs'
  | Raise _ => fs
  end.

(** ** Vocabulary for the writer and the driver *)



(** The calls of [main], lines 80-112: path, frequency, duration. *)
Definition tones : list (string * f64 * f64) :=
  [("frontend/public/sounds/click.wav"%string, b64 1000, b64 0.05);
   ("frontend/public/sounds/beep.wav"%string, b64 880, b64 0.08);
   ("frontend/public/sounds/drum.wav"%string, b64 150, b64 0.12);
   ("frontend/public/sounds/snap.wav"%string, b64 2000, b64 0.04);
   ("frontend/public/sounds/woodblock.wav"%string, b64 600, b64 0.06)].




(** ** Tactics *)

(** The preconditions of section 4.1, on a concrete tone. *)
Ltac valid_tone :=
  unfold valid_input;
  repeat split; try reflexivity; try (vm_compute; discriminate).

(** * Properties *)

(** ** The model on small inputs *)

Example int_pos : int (b64 1.75) = Ok 1. Proof. reflexivity. Qed.
Example int_neg : int (b64 (-1.75)) = Ok (-1). Proof. reflexivity. Qed.
Example int_inf : int (b64 infinity) = Raise OverflowError.
Proof. reflexivity. Qed.
Example int_nan : int (b64 nan) = Raise ValueError. Proof. reflexivity. Qed.
Example float_of_huge_int : float_of_int (10 ^ 400) = Raise OverflowError.
Proof. vm_compute. reflexivity. Qed.
Example truediv_third : truediv 1 3 = Ok (b64 (1 / 3)).
Proof. vm_compute. reflexivity. Qed.
Example truediv_by_zero : truediv 1 0 = Raise ZeroDivisionError.
Proof. reflexivity. Qed.
Example sin_of_infinity : math_sin sin_approx (b64 infinity) = Raise ValueError.
Proof. reflexivity. Qed.
Example range_3 : range 3 = [0; 1; 2]. Proof. reflexivity. Qed.
Example range_neg : range (-2) = []. Proof. reflexivity. Qed.
Example pack_minus_2 : struct_pack_h (-2) = Ok [xfe; xff].
Proof. reflexivity. Qed.
Example pack_too_big : struct_pack_h 32768 = Raise StructError.
Proof. reflexivity. Qed.
Example unpack_minus_2 : struct_unpack_h xfe xff = -2.
Proof. reflexivity. Qed.

(** The operations of the model are those of the machine: on the products
    and quotients below, the rounding of [SpecFloat] gives the floats that
    the primitive binary64 arithmetic computes. *)
Example machine_arithmetic :
  fmul (b64 44100) (b64 0.35) = b64 (44100 * 0.35) /\
  fmul (b64 100) (b64 0.29) = b64 (100 * 0.29) /\
  fmul (b64 2) math_pi = b64 (2 * 3.141592653589793) /\
  fmul (b64 1e308) (b64 10) = b64 (1e308 * 10) /\
  quotient 25 31 = b64 (25 / 31) /\
  quotient 1 44100 = b64 (1 / 44100) /\
  float_of_int 44100 = Ok (b64 44100).
Proof. vm_compute. repeat split. Qed.

(** The common fade length of the tones of [main], and the first envelope
    factor. *)
Example main_fade_length :
  fade_samples default_sample_rate = Ok 220 /\
  envelope 44100 2205 0 = Ok (b64 0.0) /\
  pcm_value sin_approx (b64 1000) 44100 (b64 0.5) 2205 0 = Ok 0.
Proof. vm_compute. repeat split. Qed.

(** Each step of the loop body rounds.  With a sine of 1.0, sample 25 of the
    tone (62 Hz, 6200 Hz, amplitude 0.44) is 11626; the same formula on
    exact rationals gives 11627. *)
Example sample_rounds_at_each_step :
  pcm_value (fun _ => b64 1.0) (b64 62) 6200 (b64 0.44) 124 25 = Ok 11626 /\
  truncate ((11 # 25) * (25 # 31) * 32767)%Q = 11627.
Proof. vm_compute. split; reflexivity. Qed.

(** ** Ranges and loops *)

Lemma range_length (n : Z) : length (range n) = Z.to_nat n.
Proof. unfold range. now rewrite length_map, length_seq. Qed.

Lemma range_In (n i : Z) : In i (range n) <-> 0 <= i < n.
Proof.
  unfold range. rewrite in_map_iff. split.
  - intros (k & <- & Hk). apply in_seq in Hk. lia.
  - intros H. exists (Z.to_nat i). split; [lia |]. apply in_seq. lia.
Qed.

Lemma range_nth (n i : Z) :
  0 <= i < n -> nth_error (range n) (Z.to_nat i) = Some i.
Proof.
  intros H. unfold range.
  rewrite nth_error_map, nth_error_seq.
  destruct (Nat.ltb_spec (Z.to_nat i) (Z.to_nat n)); [| lia].
  simpl. f_equal. lia.
Qed.

Lemma range_nonpos (n : Z) : n <= 0 -> range n = [].
Proof. intros H. unfold range. now replace (Z.to_nat n) with 0%nat by lia. Qed.

Lemma for_each_ok {A B} (body : A -> result B) (g : A -> B) (l : list A) :
  (forall a, In a l -> body a = Ok (g a)) ->
  for_each body l = Ok (map g l).
Proof.
  induction l as [| a l IH]; intros H; simpl; [reflexivity |].
  rewrite (H a) by now left. simpl.
  rewrite IH by (intros; apply H; now right). reflexivity.
Qed.

Lemma for_each_raise {A B} (body : A -> result B) (l : list A) (e : exn) :
  for_each body l = Raise e -> exists a, In a l /\ body a = Raise e.
Proof.
  induction l as [| a l IH]; simpl; [discriminate |].
  destruct (body a) as [b | e'] eqn:Hb; simpl.
  - destruct (for_each body l) as [bs | e''] eqn:Hl; simpl; [discriminate |].
    intros [= ->]. destruct (IH eq_refl) as (a' & Hin & Ha').
    exists a'. auto.
  - intros [= ->]. exists a. auto.
Qed.

(** ** Little-endian fields *)

Lemma Z_of_byte_of_Z (z : Z) : Z_of_byte (byte_of_Z z) = z mod 256.
Proof.
  unfold Z_of_byte, byte_of_Z.
  assert (Hm : 0 <= z mod 256 < 256) by (apply Z.mod_pos_bound; lia).
  destruct (Byte.of_N (Z.to_N (z mod 256))) as [b |] eqn:E.
  - apply Byte.to_of_N in E. rewrite E. lia.
  - apply Byte.of_N_None_iff in E. lia.
Qed.

Lemma Z_of_byte_range (b : byte) : 0 <= Z_of_byte b < 256.
Proof. unfold Z_of_byte. pose proof (Byte.to_N_bounded b). lia. Qed.

Lemma le_bytes_length (n : nat) (v : Z) : length (le_bytes n v) = n.
Proof. revert v. induction n; intros v; simpl; [reflexivity | now rewrite IHn]. Qed.

Lemma le_value_le_bytes (n : nat) (v : Z) :
  le_value (le_bytes n v) = v mod 256 ^ Z.of_nat n.
Proof.
  revert v. induction n as [| n IH]; intros v.
  - simpl. now rewrite Z.mod_1_r.
  - cbn [le_bytes le_value]. rewrite Z_of_byte_of_Z, IH.
    rewrite Nat2Z.inj_succ, Z.pow_succ_r by lia.
    rewrite Z.rem_mul_r by lia. lia.
Qed.

Lemma le_value_le_bytes_small (n : nat) (v : Z) :
  0 <= v < 256 ^ Z.of_nat n -> le_value (le_bytes n v) = v.
Proof. intros H. rewrite le_value_le_bytes. now apply Z.mod_small. Qed.

Lemma pack_uint_ok (n : nat) (v : Z) (bs : bytes) :
  pack_uint n v = Ok bs ->
  bs = le_bytes n v /\ 0 <= v < 256 ^ Z.of_nat n.
Proof.
  unfold pack_uint.
  destruct (0 <=? v) eqn:H0; destruct (v <? 256 ^ Z.of_nat n) eqn:H1;
    simpl; intros [= <-]. split; [reflexivity | lia].
Qed.

Lemma struct_pack_h_ok (v : Z) :
  -32768 <= v <= 32767 -> struct_pack_h v = Ok (le_bytes 2 v).
Proof.
  intros H. unfold struct_pack_h.
  destruct (-32768 <=? v) eqn:H0; destruct (v <=? 32767) eqn:H1; simpl;
    try reflexivity; lia.
Qed.

Lemma struct_pack_h_raise (v : Z) (e : exn) :
  struct_pack_h v = Raise e -> e = StructError /\ ~ (-32768 <= v <= 32767).
Proof.
  unfold struct_pack_h.
  destruct (-32768 <=? v) eqn:H0; destruct (v <=? 32767) eqn:H1; simpl;
    intros [= <-]; split; try reflexivity; lia.
Qed.

(** Packing then unpacking a 16-bit sample gives it back: nothing wraps. *)
Lemma struct_unpack_pack_h (v : Z) :
  -32768 <= v <= 32767 ->
  match le_bytes 2 v with
  | [b0; b1] => struct_unpack_h b0 b1 = v
  | _ => False
  end.
Proof.
  intros H. pose proof (le_value_le_bytes 2 v) as E.
  cbn [le_bytes] in *. unfold struct_unpack_h. rewrite E.
  change (256 ^ Z.of_nat 2) with 65536.
  destruct (Z_lt_le_dec v 0) as [Hn | Hp].
  - replace (v mod 65536) with (v + 65536)
      by (apply Z.mod_unique with (-1); lia).
    destruct (v + 65536 <? 32768) eqn:Hc; lia.
  - rewrite Z.mod_small by lia. destruct (v <? 32768) eqn:Hc; lia.
Qed.

Lemma unpack_samples_concat (vs : list Z) :
  Forall (fun v => -32768 <= v <= 32767) vs ->
  unpack_samples (concat (map (le_bytes 2) vs)) = vs.
Proof.
  induction 1 as [| v vs Hv _ IH]; [reflexivity |].
  pose proof (struct_unpack_pack_h v Hv) as E.
  cbn [map concat]. cbn [le_bytes] in *. cbn [app unpack_samples].
  now rewrite E, IH.
Qed.

Lemma concat_le_bytes_length (vs : list Z) :
  length (concat (map (le_bytes 2) vs)) = (2 * length vs)%nat.
Proof.
  induction vs as [| v vs IH]; [reflexivity |].
  cbn [map concat]. rewrite length_app, le_bytes_length, IH. simpl. lia.
Qed.

(** ** Binary digits *)

Lemma digits2_pos_bounds (p : positive) :
  2 ^ (Zpos (digits2_pos p) - 1) <= Zpos p < 2 ^ Zpos (digits2_pos p).
Proof.
  induction p as [p IH | p IH |]; simpl digits2_pos.
  - rewrite Pos2Z.inj_succ.
    replace (Z.succ (Zpos (digits2_pos p)) - 1) with (Zpos (digits2_pos p) - 1 + 1) by lia.
    rewrite Z.pow_succ_r by lia.
    destruct (Z.eq_dec (Zpos (digits2_pos p) - 1) 0) as [E | E].
    + rewrite E in *. simpl in IH |- *. lia.
    + rewrite Z.pow_add_r by lia. change (2 ^ 1) with 2. lia.
  - rewrite Pos2Z.inj_succ.
    replace (Z.succ (Zpos (digits2_pos p)) - 1) with (Zpos (digits2_pos p) - 1 + 1) by lia.
    rewrite Z.pow_succ_r by lia.
    rewrite Z.pow_add_r by lia. change (2 ^ 1) with 2. lia.
  - simpl. lia.
Qed.

Lemma Zdigits2_bounds (m : Z) :
  0 < m -> 2 ^ (Zdigits2 m - 1) <= m < 2 ^ Zdigits2 m.
Proof.
  destruct m as [| p | p]; try lia. intros _. apply digits2_pos_bounds.
Qed.

Lemma Zdigits2_pos (m : Z) : 0 < m -> 0 < Zdigits2 m.
Proof. destruct m; simpl; lia. Qed.

Lemma Zdigits2_nonneg (m : Z) : 0 <= Zdigits2 m.
Proof. destruct m; simpl; lia. Qed.

Lemma pow2_pos (k : Z) : 0 <= k -> 0 < 2 ^ k.
Proof. intros. apply Z.pow_pos_nonneg; lia. Qed.

Lemma pow2_lt_inv (a b : Z) : 0 <= b -> 2 ^ a < 2 ^ b -> a < b.
Proof.
  intros Hb H. destruct (Z_lt_le_dec a b) as [| Hle]; [assumption |].
  exfalso. assert (2 ^ b <= 2 ^ a) by (apply Z.pow_le_mono_r; lia). lia.
Qed.

(** A mantissa below [2^k] has at most [k] digits. *)
Lemma Zdigits2_le (m k : Z) : 0 <= m -> 0 <= k -> m < 2 ^ k -> Zdigits2 m <= k.
Proof.
  intros Hm Hk H. destruct (Z.eq_dec m 0) as [-> | Hne]; [simpl; lia |].
  pose proof (Zdigits2_bounds m ltac:(lia)) as [Hlo _].
  assert (Zdigits2 m - 1 < k); [| lia].
  apply pow2_lt_inv; lia.
Qed.

(** ** Shifting right *)

Lemma shr_1_m (mrs : shr_record) :
  0 <= shr_m mrs -> shr_m (shr_1 mrs) = shr_m mrs / 2.
Proof.
  destruct mrs as [m r s]. simpl. intros Hm.
  rewrite <- Z.div2_div.
  destruct m as [| [p | p |] | p]; try reflexivity; lia.
Qed.

Lemma shr_1_exact (mrs : shr_record) :
  0 <= shr_m mrs -> exact_rec mrs -> shr_m mrs mod 2 = 0 ->
  exact_rec (shr_1 mrs).
Proof.
  destruct mrs as [m r s]. unfold exact_rec. simpl. intros Hm [-> ->] Hmod.
  destruct m as [| [p | p |] | p]; simpl; try (split; reflexivity); try lia.
  - exfalso. rewrite Pos2Z.inj_xI in Hmod.
    rewrite Z.add_comm, Z.mul_comm, Z.mod_add in Hmod by lia. discriminate.
  - discriminate.
Qed.

Lemma iter_pos_invariant {A} (f : A -> A) (P : Z -> A -> Prop) :
  (forall k x, 0 <= k -> P k x -> P (k + 1) (f x)) ->
  forall n k x, 0 <= k -> P k x -> P (k + Zpos n) (SpecFloat.iter_pos f n x).
Proof.
  intros Hstep. induction n as [n IH | n IH |]; intros k x Hk Hx; simpl.
  - replace (k + Zpos n~1) with (k + 1 + Zpos n + Zpos n) by lia.
    apply IH; [lia |]. apply IH; [lia |]. apply Hstep; assumption.
  - replace (k + Zpos n~0) with (k + Zpos n + Zpos n) by lia.
    apply IH; [lia |]. apply IH; assumption.
  - apply Hstep; assumption.
Qed.

Lemma mod_pow2_succ (M k : Z) :
  0 <= k -> M mod 2 ^ (k + 1) = 0 ->
  M mod 2 ^ k = 0 /\ (M / 2 ^ k) mod 2 = 0.
Proof.
  intros Hk H. pose proof (pow2_pos k Hk) as Hp.
  apply Z.mod_divide in H; [| rewrite Z.pow_add_r by lia; change (2 ^ 1) with 2; lia].
  destruct H as [c Hc]. rewrite Z.pow_add_r in Hc by lia. change (2 ^ 1) with 2 in Hc.
  subst M. split.
  - replace (c * (2 ^ k * 2)) with ((c * 2) * 2 ^ k) by ring.
    apply Z.mod_mul. lia.
  - replace (c * (2 ^ k * 2)) with ((c * 2) * 2 ^ k) by ring.
    rewrite Z.div_mul by lia. apply Z.mod_mul. lia.
Qed.

Lemma iter_shr_1 (M : Z) (n : positive) (mrs : shr_record) :
  0 <= M -> shr_m mrs = M ->
  shr_m (SpecFloat.iter_pos shr_1 n mrs) = M / 2 ^ Zpos n /\
  (exact_rec mrs -> M mod 2 ^ Zpos n = 0 -> exact_rec (SpecFloat.iter_pos shr_1 n mrs)).
Proof.
  intros HM Hm.
  pose (P := fun (k : Z) (r : shr_record) =>
               shr_m r = M / 2 ^ k /\
               (exact_rec mrs -> M mod 2 ^ k = 0 -> exact_rec r)).
  assert (Hstep : forall k x, 0 <= k -> P k x -> P (k + 1) (shr_1 x)).
  { intros k x Hk [Hx Hex]. pose proof (pow2_pos k Hk) as Hp.
    assert (Hnn : 0 <= shr_m x) by (rewrite Hx; apply Z.div_pos; lia).
    split.
    - rewrite shr_1_m by assumption. rewrite Hx, Z.div_div by lia.
      rewrite Z.pow_add_r by lia. reflexivity.
    - intros H0 Hmod. destruct (mod_pow2_succ M k Hk Hmod) as [H1 H2].
      apply shr_1_exact; [assumption | auto |]. rewrite Hx. exact H2. }
  assert (H0 : P 0 mrs).
  { split; [rewrite Hm, Z.div_1_r; reflexivity | auto]. }
  pose proof (iter_pos_invariant shr_1 P Hstep n 0 mrs ltac:(lia) H0) as H.
  exact H.
Qed.

Lemma shr_record_of_loc_m (m : Z) (l : location) :
  shr_m (shr_record_of_loc m l) = m.
Proof. destruct l as [| []]; reflexivity. Qed.

Lemma shr_record_of_loc_exact (m : Z) : exact_rec (shr_record_of_loc m loc_Exact).
Proof. split; reflexivity. Qed.

Lemma loc_of_exact_rec (mrs : shr_record) :
  exact_rec mrs -> loc_of_shr_record mrs = loc_Exact.
Proof. destruct mrs as [m r s]. intros [H1 H2]. simpl in *. subst. reflexivity. Qed.

Lemma loc_of_shr_record_of_loc (m : Z) (l : location) :
  loc_of_shr_record (shr_record_of_loc m l) = l.
Proof. destruct l as [| []]; reflexivity. Qed.

(** [shr_fexp]: the exponent is raised to the format's, the mantissa loses
    the bits below it. *)
Lemma shr_fexp_spec (M E : Z) (l : location) :
  0 <= M ->
  let e1 := Z.max E (fexp prec emax (Zdigits2 M + E)) in
  exists mrs,
    shr_fexp prec emax M E l = (mrs, e1) /\
    shr_m mrs = M / 2 ^ (e1 - E) /\
    (l = loc_Exact -> M mod 2 ^ (e1 - E) = 0 -> exact_rec mrs) /\
    (e1 = E -> loc_of_shr_record mrs = l).
Proof.
  intros HM e1. unfold shr_fexp, shr.
  destruct (fexp prec emax (Zdigits2 M + E) - E) as [| p | p] eqn:Hn.
  - exists (shr_record_of_loc M l).
    assert (He : e1 = E) by (unfold e1; lia).
    rewrite He, Z.sub_diag, Z.div_1_r. split; [reflexivity |]. split; [| split].
    + apply shr_record_of_loc_m.
    + intros -> _. apply shr_record_of_loc_exact.
    + intros _. apply loc_of_shr_record_of_loc.
  - assert (He : e1 = E + Zpos p) by (unfold e1; lia).
    exists (SpecFloat.iter_pos shr_1 p (shr_record_of_loc M l)).
    destruct (iter_shr_1 M p (shr_record_of_loc M l) HM (shr_record_of_loc_m M l))
      as [H1 H2].
    rewrite He. replace (E + Zpos p - E) with (Zpos p) by lia.
    split; [reflexivity |]. split; [exact H1 |]. split; [| lia].
    intros -> Hmod. apply H2; [apply shr_record_of_loc_exact | exact Hmod].
  - exists (shr_record_of_loc M l).
    assert (He : e1 = E) by (unfold e1; lia).
    rewrite He, Z.sub_diag, Z.div_1_r. split; [reflexivity |]. split; [| split].
    + apply shr_record_of_loc_m.
    + intros -> _. apply shr_record_of_loc_exact.
    + intros _. apply loc_of_shr_record_of_loc.
Qed.

Lemma round_nearest_even_bounds (m : Z) (l : location) :
  m <= round_nearest_even m l <= m + 1.
Proof. destruct l as [| []]; simpl; try lia. destruct (Z.even m); lia. Qed.

Lemma round_nearest_even_exact (m : Z) : round_nearest_even m loc_Exact = m.
Proof. reflexivity. Qed.

(** Rounding, in two steps: the mantissa [m1] kept at the format's exponent
    [e1], then [finish]. *)
Lemma binary_round_aux_spec (s : bool) (M E : Z) (l : location) :
  0 <= M ->
  let e1 := Z.max E (fexp prec emax (Zdigits2 M + E)) in
  let m0 := M / 2 ^ (e1 - E) in
  exists m1,
    m0 <= m1 <= m0 + 1 /\
    (l = loc_Exact -> M mod 2 ^ (e1 - E) = 0 -> m1 = m0) /\
    binary_round_aux prec emax s M E l = finish s m1 e1.
Proof.
  intros HM e1 m0.
  destruct (shr_fexp_spec M E l HM) as (mrs & Hs & Hm & Hex & _).
  fold e1 in Hs, Hm, Hex.
  set (m1 := round_nearest_even (shr_m mrs) (loc_of_shr_record mrs)).
  exists m1. split; [| split].
  - unfold m1, m0. rewrite <- Hm. apply round_nearest_even_bounds.
  - intros Hl Hmod. unfold m1. rewrite (loc_of_exact_rec mrs (Hex Hl Hmod)).
    rewrite round_nearest_even_exact. exact Hm.
  - assert (Hm1 : 0 <= m1).
    { unfold m1. pose proof (round_nearest_even_bounds (shr_m mrs) (loc_of_shr_record mrs)).
      assert (0 <= shr_m mrs); [| lia].
      rewrite Hm. apply Z.div_pos; [lia |]. apply pow2_pos. unfold e1. lia. }
    unfold binary_round_aux. rewrite Hs. fold m1.
    destruct (shr_fexp_spec m1 e1 loc_Exact Hm1) as (mrs2 & Hs2 & Hm2 & _).
    rewrite Hs2. unfold finish. rewrite Hm2.
    destruct (m1 / 2 ^ (Z.max e1 (fexp prec emax (Zdigits2 m1 + e1)) - e1));
      reflexivity.
Qed.

Lemma fexp_eq (x : Z) : fexp prec emax x = Z.max (x - 53) (-1074).
Proof. reflexivity. Qed.

Lemma format_exponent_min (M E : Z) :
  -1074 <= Z.max E (fexp prec emax (Zdigits2 M + E)).
Proof. rewrite fexp_eq. lia. Qed.

Lemma kept_mantissa_lt (M E : Z) :
  0 <= M ->
  let e1 := Z.max E (fexp prec emax (Zdigits2 M + E)) in
  0 <= M / 2 ^ (e1 - E) < 2 ^ 53.
Proof.
  intros HM e1.
  assert (Hn : 0 <= e1 - E) by (unfold e1; lia).
  pose proof (pow2_pos _ Hn) as Hp.
  split; [apply Z.div_pos; lia |].
  destruct (Z.eq_dec M 0) as [-> | Hne].
  { rewrite Z.div_0_l by lia. reflexivity. }
  pose proof (Zdigits2_bounds M ltac:(lia)) as [_ Hhi].
  apply Z.div_lt_upper_bound; [lia |].
  rewrite <- Z.pow_add_r by lia.
  eapply Z.lt_le_trans; [exact Hhi |].
  apply Z.pow_le_mono_r; [lia |].
  unfold e1. rewrite fexp_eq. lia.
Qed.

Lemma Zdigits2_2p53 : Zdigits2 (2 ^ 53) = 54.
Proof. reflexivity. Qed.

(** The three outcomes of [finish]. *)
Lemma finish_zero (s : bool) (e1 : Z) : -1074 <= e1 -> finish s 0 e1 = S754_zero s.
Proof.
  intros He. unfold finish. rewrite Z.div_0_l; [reflexivity |].
  pose proof (pow2_pos (Z.max e1 (fexp prec emax (Zdigits2 0 + e1)) - e1) ltac:(lia)).
  lia.
Qed.

Lemma finish_small (s : bool) (m1 e1 : Z) :
  0 < m1 < 2 ^ 53 -> -1074 <= e1 ->
  finish s m1 e1 =
    if e1 <=? 971 then S754_finite s (Z.to_pos m1) e1 else S754_infinity s.
Proof.
  intros Hm He. unfold finish.
  assert (Hd : Zdigits2 m1 <= 53) by (apply Zdigits2_le; lia).
  assert (E2 : Z.max e1 (fexp prec emax (Zdigits2 m1 + e1)) = e1)
    by (rewrite fexp_eq; lia).
  rewrite E2, Z.sub_diag, Z.div_1_r.
  destruct m1 as [| p | p]; try lia. reflexivity.
Qed.

Lemma finish_carry (s : bool) (e1 : Z) :
  -1074 <= e1 ->
  finish s (2 ^ 53) e1 =
    if e1 + 1 <=? 971 then S754_finite s (Z.to_pos (2 ^ 52)) (e1 + 1)
    else S754_infinity s.
Proof.
  intros He. unfold finish. rewrite Zdigits2_2p53.
  assert (E2 : Z.max e1 (fexp prec emax (54 + e1)) = e1 + 1)
    by (rewrite fexp_eq; lia).
  rewrite E2. replace (e1 + 1 - e1) with 1 by lia. reflexivity.
Qed.

Lemma finish_cases (s : bool) (m1 e1 : Z) :
  0 <= m1 <= 2 ^ 53 -> -1074 <= e1 ->
  finish s m1 e1 = S754_zero s /\ m1 = 0 \/
  (exists m e, finish s m1 e1 = S754_finite s m e /\ 0 < m1 /\
               Zpos m < 2 ^ 53 /\ e <= 971 /\
               (e = e1 /\ Zpos m = m1 \/ e = e1 + 1 /\ Zpos m = 2 ^ 52 /\ m1 = 2 ^ 53)) \/
  finish s m1 e1 = S754_infinity s /\ 0 < m1 /\ 971 <= e1.
Proof.
  intros Hm He.
  destruct (Z.eq_dec m1 0) as [-> | Hne].
  { left. split; [apply finish_zero; assumption | reflexivity]. }
  destruct (Z.eq_dec m1 (2 ^ 53)) as [-> | Hne2].
  { rewrite finish_carry by assumption.
    destruct (e1 + 1 <=? 971) eqn:Hle.
    - right. left. eexists _, _. split; [reflexivity |]. split; [reflexivity |].
      apply Z.leb_le in Hle. split; [reflexivity |]. split; [exact Hle |].
      right. repeat split; reflexivity.
    - right. right. apply Z.leb_gt in Hle. repeat split; lia. }
  rewrite finish_small by lia.
  destruct (e1 <=? 971) eqn:Hle.
  - right. left. eexists _, _. split; [reflexivity |]. split; [lia |].
    apply Z.leb_le in Hle. rewrite Z2Pos.id by lia.
    split; [lia |]. split; [exact Hle |].
    left. split; reflexivity.
  - right. right. apply Z.leb_gt in Hle. repeat split; lia.
Qed.

(** ** Comparing a magnitude with an integer *)

Lemma mag_le_scale (m e b k : Z) :
  0 <= k -> 0 <= e + k ->
  (mag_le m e b = true <-> m * 2 ^ (e + k) <= b * 2 ^ k).
Proof.
  intros Hk Hek. unfold mag_le.
  pose proof (pow2_pos k Hk) as Hp.
  destruct (0 <=? e) eqn:He.
  - apply Z.leb_le in He. rewrite Z.leb_le, Z.pow_add_r by lia.
    rewrite Z.mul_assoc. split; intros H.
    + apply Z.mul_le_mono_nonneg_r; lia.
    + apply Z.mul_le_mono_pos_r in H; lia.
  - apply Z.leb_gt in He. rewrite Z.leb_le.
    replace k with (- e + (e + k)) at 2 by lia.
    rewrite (Z.pow_add_r 2 (- e)) by lia. rewrite Z.mul_assoc.
    pose proof (pow2_pos (e + k) Hek) as Hq.
    split; intros H.
    + apply Z.mul_le_mono_nonneg_r; lia.
    + apply Z.mul_le_mono_pos_r in H; lia.
Qed.

Lemma mag_ge_scale (m e b k : Z) :
  0 <= k -> 0 <= e + k ->
  (mag_ge m e b = true <-> b * 2 ^ k <= m * 2 ^ (e + k)).
Proof.
  intros Hk Hek. unfold mag_ge.
  pose proof (pow2_pos k Hk) as Hp.
  destruct (0 <=? e) eqn:He.
  - apply Z.leb_le in He. rewrite Z.leb_le, Z.pow_add_r by lia.
    rewrite Z.mul_assoc. split; intros H.
    + apply Z.mul_le_mono_nonneg_r; lia.
    + apply Z.mul_le_mono_pos_r in H; lia.
  - apply Z.leb_gt in He. rewrite Z.leb_le.
    replace k with (- e + (e + k)) at 1 by lia.
    rewrite (Z.pow_add_r 2 (- e)) by lia. rewrite Z.mul_assoc.
    pose proof (pow2_pos (e + k) Hek) as Hq.
    split; intros H.
    + apply Z.mul_le_mono_nonneg_r; lia.
    + apply Z.mul_le_mono_pos_r in H; lia.
Qed.

Lemma mag_le_mono (m m' e b b' : Z) :
  m' <= m -> b <= b' -> mag_le m e b = true -> mag_le m' e b' = true.
Proof.
  intros Hm Hb. set (k := Z.max 0 (- e)).
  rewrite (mag_le_scale m e b k), (mag_le_scale m' e b' k) by (unfold k; lia).
  pose proof (pow2_pos k ltac:(unfold k; lia)).
  pose proof (pow2_pos (e + k) ltac:(unfold k; lia)).
  intros H1. nia.
Qed.

Lemma mag_ge_mono (m m' e b b' : Z) :
  m <= m' -> b' <= b -> mag_ge m e b = true -> mag_ge m' e b' = true.
Proof.
  intros Hm Hb. set (k := Z.max 0 (- e)).
  rewrite (mag_ge_scale m e b k), (mag_ge_scale m' e b' k) by (unfold k; lia).
  pose proof (pow2_pos k ltac:(unfold k; lia)).
  pose proof (pow2_pos (e + k) ltac:(unfold k; lia)).
  intros H1. nia.
Qed.

Lemma finish_within (s : bool) (m1 e1 b : Z) :
  0 <= m1 <= 2 ^ 53 -> -1074 <= e1 -> 0 <= b < 2 ^ 53 ->
  mag_le m1 e1 b = true -> within b (finish s m1 e1) = true.
Proof.
  intros Hm He Hb Hle.
  destruct (finish_cases s m1 e1 Hm He)
    as [[-> _] | [(m & e & -> & Hpos & _ & _ & Hme) | (-> & Hpos & Hbig)]]; simpl.
  - apply Z.leb_le. lia.
  - destruct Hme as [[-> Hm1] | (-> & Hm1 & ->)].
    + rewrite Hm1. exact Hle.
    + rewrite Hm1.
      set (k := Z.max 0 (- e1)).
      apply (mag_le_scale _ _ _ k) in Hle; [| unfold k; lia | unfold k; lia].
      apply (mag_le_scale _ _ _ (k + 1)); [unfold k; lia | unfold k; lia |].
      replace (e1 + 1 + (k + 1)) with (e1 + k + 1 + 1) by lia.
      rewrite !(Z.pow_add_r 2 _ 1) by (unfold k; lia).
      change (2 ^ 1) with 2. change (2 ^ 53) with (2 ^ 52 * 2) in Hle.
      pose proof (pow2_pos k ltac:(unfold k; lia)).
      pose proof (pow2_pos (e1 + k) ltac:(unfold k; lia)).
      nia.
  - exfalso. apply (mag_le_scale _ _ _ 0) in Hle; [| lia | lia].
    rewrite Z.add_0_r in Hle. change (2 ^ 0) with 1 in Hle.
    assert (2 ^ 971 <= 2 ^ e1) by (apply Z.pow_le_mono_r; lia).
    assert (2 ^ 53 < 2 ^ 971) by reflexivity.
    nia.
Qed.

Lemma finish_at_least (s : bool) (m1 e1 b : Z) :
  0 <= m1 <= 2 ^ 53 -> -1074 <= e1 -> 0 < b ->
  mag_ge m1 e1 b = true -> at_least b (finish s m1 e1) = true.
Proof.
  intros Hm He Hb Hge.
  destruct (finish_cases s m1 e1 Hm He)
    as [[-> ->] | [(m & e & -> & Hpos & _ & _ & Hme) | (-> & Hpos & Hbig)]]; simpl.
  - exfalso. set (k := Z.max 0 (- e1)).
    apply (mag_ge_scale _ _ _ k) in Hge; [| unfold k; lia | unfold k; lia].
    pose proof (pow2_pos k ltac:(unfold k; lia)). nia.
  - destruct Hme as [[-> Hm1] | (-> & Hm1 & ->)].
    + rewrite Hm1. exact Hge.
    + rewrite Hm1.
      set (k := Z.max 0 (- e1)).
      apply (mag_ge_scale _ _ _ k) in Hge; [| unfold k; lia | unfold k; lia].
      apply (mag_ge_scale _ _ _ (k + 1)); [unfold k; lia | unfold k; lia |].
      replace (e1 + 1 + (k + 1)) with (e1 + k + 1 + 1) by lia.
      rewrite !(Z.pow_add_r 2 _ 1) by (unfold k; lia).
      change (2 ^ 1) with 2. change (2 ^ 53) with (2 ^ 52 * 2) in Hge.
      pose proof (pow2_pos k ltac:(unfold k; lia)).
      pose proof (pow2_pos (e1 + k) ltac:(unfold k; lia)).
      nia.
  - reflexivity.
Qed.

Lemma finish_sign (s : bool) (m1 e1 : Z) :
  0 <= m1 <= 2 ^ 53 -> -1074 <= e1 -> sign_of (finish s m1 e1) = Some s.
Proof.
  intros Hm He.
  destruct (finish_cases s m1 e1 Hm He)
    as [[-> _] | [(m & e & -> & _) | (-> & _)]]; reflexivity.
Qed.

(** Above the format's exponent the kept mantissa has its 53 bits. *)
Lemma kept_mantissa_full (M E : Z) :
  0 <= M ->
  let e1 := Z.max E (fexp prec emax (Zdigits2 M + E)) in
  E < e1 -> -1074 < e1 ->
  e1 = Zdigits2 M + E - 53 /\ 2 ^ 52 <= M / 2 ^ (e1 - E).
Proof.
  intros HM e1 Hlt Hmin.
  assert (He : e1 = Zdigits2 M + E - 53)
    by (unfold e1 in *; rewrite fexp_eq in *; lia).
  split; [exact He |].
  assert (Hd : 53 < Zdigits2 M) by lia.
  assert (HM' : 0 < M) by (destruct M; simpl in Hd; lia).
  pose proof (Zdigits2_bounds M HM') as [Hlo _].
  apply Z.div_le_lower_bound; [apply pow2_pos; lia |].
  rewrite <- Z.pow_add_r by lia.
  replace (e1 - E + 52) with (Zdigits2 M - 1) by lia. exact Hlo.
Qed.

(** Rounding does not cross an integer below 2^53, from below. *)
Lemma round_within (s : bool) (M E : Z) (l : location) (b : Z) :
  0 <= M -> 0 <= b < 2 ^ 53 ->
  (l = loc_Exact /\ mag_le M E b = true) \/ mag_le (M + 1) E b = true ->
  within b (binary_round_aux prec emax s M E l) = true.
Proof.
  intros HM Hb Hle.
  destruct (binary_round_aux_spec s M E l HM) as (m1 & Hm1 & Hex & ->).
  set (e1 := Z.max E (fexp prec emax (Zdigits2 M + E))) in *.
  set (m0 := M / 2 ^ (e1 - E)) in *.
  pose proof (kept_mantissa_lt M E HM) as Hm0. cbv zeta in Hm0.
  fold e1 in Hm0. fold m0 in Hm0.
  pose proof (format_exponent_min M E) as He1. fold e1 in He1.
  apply finish_within; [lia | assumption | assumption |].
  assert (Hn : 0 <= e1 - E) by (unfold e1; lia).
  pose proof (pow2_pos _ Hn) as Hp.
  assert (HleM : mag_le M E b = true).
  { destruct Hle as [[_ H] | H]; [exact H |].
    apply (mag_le_mono (M + 1) M E b b); [lia | lia | exact H]. }
  destruct (Z_le_gt_dec e1 0) as [Hneg | Hposi].
  - (* the format's exponent is at most 0 *)
    set (B := b * 2 ^ (- e1)).
    assert (HB : mag_le m1 e1 b = true <-> m1 <= B).
    { rewrite (mag_le_scale m1 e1 b (- e1)) by lia.
      replace (e1 + - e1) with 0 by lia. change (2 ^ 0) with 1. unfold B. lia. }
    apply HB.
    assert (HBn : B * 2 ^ (e1 - E) = b * 2 ^ (- E)).
    { unfold B. rewrite <- Z.mul_assoc, <- Z.pow_add_r by lia.
      f_equal. f_equal. lia. }
    assert (Hsc : forall X, mag_le X E b = true <-> X <= B * 2 ^ (e1 - E)).
    { intros X. rewrite (mag_le_scale X E b (- E)) by lia.
      replace (E + - E) with 0 by lia. change (2 ^ 0) with 1. rewrite HBn. lia. }
    destruct Hle as [[Hl H] | H].
    + apply Hsc in H.
      destruct (Z.eq_dec (M mod 2 ^ (e1 - E)) 0) as [Hmod | Hmod].
      * rewrite (Hex Hl Hmod). unfold m0.
        apply Z.div_le_upper_bound; lia.
      * assert (M <> B * 2 ^ (e1 - E)).
        { intros HMB. apply Hmod. rewrite HMB. apply Z.mod_mul. lia. }
        assert (m0 < B); [| lia].
        unfold m0. apply Z.div_lt_upper_bound; lia.
    + apply Hsc in H.
      assert (m0 < B); [| lia].
      unfold m0. apply Z.div_lt_upper_bound; lia.
  - (* the format's exponent is positive *)
    destruct (Z.eq_dec e1 E) as [Heq | Hne].
    + assert (Hm0M : m0 = M).
      { unfold m0. rewrite Heq, Z.sub_diag. apply Z.div_1_r. }
      rewrite Heq in *.
      destruct Hle as [[Hl H] | H].
      * rewrite (Hex Hl), Hm0M; [exact H |].
        rewrite Z.sub_diag. apply Z.mod_1_r.
      * apply (mag_le_mono (M + 1) m1 E b b); [lia | lia | exact H].
    + exfalso.
      destruct (kept_mantissa_full M E HM) as [He Hfull];
        [fold e1; lia | fold e1; lia |].
      fold e1 in He, Hfull. fold m0 in Hfull.
      set (k := Z.max 0 (- E)).
      apply (mag_le_scale _ _ _ k) in HleM; [| unfold k; lia | unfold k; lia].
      assert (Hd : 53 < Zdigits2 M) by lia.
      assert (HM' : 0 < M) by (destruct M; simpl in Hd; lia).
      pose proof (Zdigits2_bounds M HM') as [Hlo _].
      pose proof (pow2_pos k ltac:(unfold k; lia)) as Hk.
      pose proof (pow2_pos (E + k) ltac:(unfold k; lia)) as Hek.
      assert (H1 : 2 ^ (Zdigits2 M - 1) * 2 ^ (E + k) < 2 ^ 53 * 2 ^ k) by nia.
      rewrite <- !Z.pow_add_r in H1 by (unfold k; lia).
      apply pow2_lt_inv in H1; [| unfold k; lia]. lia.
Qed.

(** Rounding does not cross an integer below 2^53, from above. *)
Lemma round_at_least (s : bool) (M E : Z) (l : location) (b : Z) :
  0 <= M -> 0 < b < 2 ^ 53 ->
  mag_ge M E b = true ->
  at_least b (binary_round_aux prec emax s M E l) = true.
Proof.
  intros HM Hb Hge.
  destruct (binary_round_aux_spec s M E l HM) as (m1 & Hm1 & Hex & ->).
  set (e1 := Z.max E (fexp prec emax (Zdigits2 M + E))) in *.
  set (m0 := M / 2 ^ (e1 - E)) in *.
  pose proof (kept_mantissa_lt M E HM) as Hm0. cbv zeta in Hm0.
  fold e1 in Hm0. fold m0 in Hm0.
  pose proof (format_exponent_min M E) as He1. fold e1 in He1.
  apply finish_at_least; [lia | assumption | lia |].
  apply (mag_ge_mono m0 m1 e1 b b); [lia | lia |].
  assert (Hn : 0 <= e1 - E) by (unfold e1; lia).
  pose proof (pow2_pos _ Hn) as Hp.
  destruct (Z_le_gt_dec e1 0) as [Hneg | Hposi].
  - apply (mag_ge_scale m0 e1 b (- e1)); [lia | lia |].
    replace (e1 + - e1) with 0 by lia. change (2 ^ 0) with 1. rewrite Z.mul_1_r.
    apply (mag_ge_scale _ _ _ (- E)) in Hge; [| lia | lia].
    replace (E + - E) with 0 in Hge by lia. change (2 ^ 0) with 1 in Hge.
    unfold m0. apply Z.div_le_lower_bound; [lia |].
    rewrite Z.mul_comm, <- Z.mul_assoc, <- Z.pow_add_r by lia.
    replace (- e1 + (e1 - E)) with (- E) by lia. lia.
  - destruct (Z.eq_dec e1 E) as [Heq | Hne].
    + assert (Hm0M : m0 = M).
      { unfold m0. rewrite Heq, Z.sub_diag. apply Z.div_1_r. }
      rewrite Hm0M, Heq. exact Hge.
    + destruct (kept_mantissa_full M E HM) as [He Hfull];
        [fold e1; lia | fold e1; lia |].
      fold e1 in He, Hfull. fold m0 in Hfull.
      apply (mag_ge_scale _ _ _ 0); [lia | lia |].
      rewrite Z.add_0_r. change (2 ^ 0) with 1.
      assert (2 ^ 1 <= 2 ^ e1) by (apply Z.pow_le_mono_r; lia).
      change (2 ^ 1) with 2 in *. change (2 ^ 53) with (2 ^ 52 * 2) in Hb.
      nia.
Qed.

Lemma round_sign (s : bool) (M E : Z) (l : location) :
  0 <= M -> sign_of (binary_round_aux prec emax s M E l) = Some s.
Proof.
  intros HM.
  destruct (binary_round_aux_spec s M E l HM) as (m1 & Hm1 & Hex & ->).
  pose proof (kept_mantissa_lt M E HM) as Hm0. cbv zeta in Hm0.
  apply finish_sign; [lia | apply format_exponent_min].
Qed.

(** No underflow to zero from an exponent the format has. *)
Lemma round_nonzero (s : bool) (M E : Z) (l : location) :
  0 < M -> -1074 <= E ->
  binary_round_aux prec emax s M E l = S754_infinity s \/
  exists m e, binary_round_aux prec emax s M E l = S754_finite s m e.
Proof.
  intros HM HE.
  destruct (binary_round_aux_spec s M E l ltac:(lia)) as (m1 & Hm1 & Hex & ->).
  set (e1 := Z.max E (fexp prec emax (Zdigits2 M + E))) in *.
  set (m0 := M / 2 ^ (e1 - E)) in *.
  pose proof (kept_mantissa_lt M E ltac:(lia)) as Hm0. cbv zeta in Hm0.
  fold e1 in Hm0. fold m0 in Hm0.
  pose proof (format_exponent_min M E) as He1. fold e1 in He1.
  assert (H1 : 1 <= m0).
  { unfold m0. pose proof (Zdigits2_bounds M HM) as [Hlo _].
    pose proof (Zdigits2_pos M HM) as Hd.
    assert (Hn : 0 <= e1 - E <= Zdigits2 M - 1)
      by (unfold e1; rewrite fexp_eq; lia).
    apply Z.div_le_lower_bound; [apply pow2_pos; lia |].
    rewrite Z.mul_1_r. eapply Z.le_trans; [| exact Hlo].
    apply Z.pow_le_mono_r; lia. }
  destruct (finish_cases s m1 e1 ltac:(lia) He1)
    as [[_ H0] | [(m & e & -> & _) | (-> & _)]].
  - lia.
  - right. eexists _, _. reflexivity.
  - left. reflexivity.
Qed.

(** A rounded result is in the format: 53 bits at most, exponent at most
    971. *)
Lemma round_in_format (s : bool) (M E : Z) (l : location) :
  0 <= M ->
  binary_round_aux prec emax s M E l = S754_infinity s \/
  in_format (binary_round_aux prec emax s M E l) = true.
Proof.
  intros HM.
  destruct (binary_round_aux_spec s M E l HM) as (m1 & Hm1 & Hex & ->).
  pose proof (kept_mantissa_lt M E HM) as Hm0. cbv zeta in Hm0.
  destruct (finish_cases s m1 _ ltac:(lia) (format_exponent_min M E))
    as [[-> _] | [(m & e & -> & _ & Hm & He & _) | (-> & _)]].
  - right. reflexivity.
  - right. simpl. apply andb_true_intro. split; [apply Z.ltb_lt | apply Z.leb_le]; lia.
  - left. reflexivity.
Qed.

(** No overflow below 2^1023. *)
Lemma round_finite (s : bool) (M E : Z) (l : location) :
  0 <= M -> Zdigits2 M + E <= 1023 -> E <= 970 ->
  in_format (binary_round_aux prec emax s M E l) = true.
Proof.
  intros HM Hd HE.
  destruct (round_in_format s M E l HM) as [Hinf | H]; [| exact H].
  exfalso.
  destruct (binary_round_aux_spec s M E l HM) as (m1 & Hm1 & Hex & Hr).
  rewrite Hr in Hinf.
  pose proof (kept_mantissa_lt M E HM) as Hm0. cbv zeta in Hm0.
  destruct (finish_cases s m1 _ ltac:(lia) (format_exponent_min M E))
    as [[H0 _] | [(m & e & H0 & _) | (_ & _ & Hbig)]].
  - congruence.
  - congruence.
  - rewrite fexp_eq in Hbig. lia.
Qed.

(** ** [int] of a float *)

Lemma truncate_opp (x : Q) : truncate (- x) = - truncate x.
Proof. destruct x as [n d]. unfold truncate. simpl. apply Z.quot_opp_l. lia. Qed.

Lemma truncate_nonneg_floor (x : Q) : (0 <= x)%Q -> truncate x = Qfloor x.
Proof.
  destruct x as [n d]. unfold Qle, truncate, Qfloor. simpl. intros H.
  apply Z.quot_div_nonneg; lia.
Qed.

(** [truncate] drops the fractional part: the result is the integer next to
    [x] on the side of zero. *)
Lemma truncate_toward_zero (x : Q) :
  ((0 <= x)%Q -> (inject_Z (truncate x) <= x < inject_Z (truncate x + 1))%Q) /\
  ((x <= 0)%Q -> (inject_Z (truncate x - 1) < x <= inject_Z (truncate x))%Q).
Proof.
  split; intros H.
  - rewrite truncate_nonneg_floor by exact H.
    split; [apply Qfloor_le | apply Qlt_floor].
  - assert (E : truncate x = Qceiling x).
    { unfold Qceiling. rewrite <- truncate_nonneg_floor by lra.
      rewrite truncate_opp. lia. }
    rewrite E. split; [apply Qceiling_lt | apply Qle_ceiling].
Qed.

Lemma to_pos_pow2 (k : Z) : 0 <= k -> Zpos (Z.to_pos (2 ^ k)) = 2 ^ k.
Proof. intros. apply Z2Pos.id. apply pow2_pos. assumption. Qed.

Lemma int_finite (s : bool) (m : positive) (e : Z) :
  int (S754_finite s m e) =
    Ok (if s then - int_magnitude m e else int_magnitude m e).
Proof.
  unfold int, f64_value, int_magnitude. f_equal.
  destruct (0 <=? e) eqn:He.
  - destruct s.
    + rewrite truncate_opp. f_equal. unfold truncate. simpl. apply Z.quot_1_r.
    + unfold truncate. simpl. apply Z.quot_1_r.
  - apply Z.leb_gt in He.
    assert (E : truncate (Zpos m # Z.to_pos (2 ^ (- e))) = Zpos m / 2 ^ (- e)).
    { unfold truncate. simpl. rewrite to_pos_pow2 by lia.
      apply Z.quot_div_nonneg; [lia | apply pow2_pos; lia]. }
    destruct s; [rewrite truncate_opp |]; rewrite E; reflexivity.
Qed.

Lemma int_zero (s : bool) : int (S754_zero s) = Ok 0.
Proof. reflexivity. Qed.

Lemma int_magnitude_nonneg (m : positive) (e : Z) : 0 <= int_magnitude m e.
Proof.
  unfold int_magnitude. destruct (0 <=? e) eqn:He.
  - apply Z.leb_le in He. pose proof (pow2_pos e He). nia.
  - apply Z.leb_gt in He. apply Z.div_pos; [lia | apply pow2_pos; lia].
Qed.

Lemma int_magnitude_le (m : positive) (e b : Z) :
  mag_le (Zpos m) e b = true -> int_magnitude m e <= b.
Proof.
  unfold mag_le, int_magnitude. destruct (0 <=? e) eqn:He; intros H.
  - apply Z.leb_le in H. exact H.
  - apply Z.leb_gt in He. apply Z.leb_le in H.
    apply Z.div_le_upper_bound; [apply pow2_pos; lia | lia].
Qed.

Lemma int_magnitude_ge (m : positive) (e b : Z) :
  mag_ge (Zpos m) e b = true -> b <= int_magnitude m e.
Proof.
  unfold mag_ge, int_magnitude. destruct (0 <=? e) eqn:He; intros H.
  - apply Z.leb_le in H. exact H.
  - apply Z.leb_gt in He. apply Z.leb_le in H.
    apply Z.div_le_lower_bound; [apply pow2_pos; lia | lia].
Qed.

(** A float within [b] converts, to an int within [b]. *)
Lemma int_within (b : Z) (x : f64) :
  within b x = true -> exists v, int x = Ok v /\ - b <= v <= b.
Proof.
  destruct x as [s | s | | s m e]; intros H; simpl in H; try discriminate.
  - exists 0. apply Z.leb_le in H. split; [reflexivity | lia].
  - rewrite int_finite. eexists. split; [reflexivity |].
    pose proof (int_magnitude_nonneg m e). pose proof (int_magnitude_le m e b H).
    destruct s; lia.
Qed.

Lemma int_at_least (b : Z) (x : f64) (v : Z) :
  0 < b -> at_least b x = true -> sign_of x = Some false ->
  int x = Ok v -> b <= v.
Proof.
  destruct x as [s | s | | s m e]; intros Hb H Hs Hv; simpl in H, Hs;
    try discriminate.
  - apply Z.leb_le in H. lia.
  - rewrite int_finite in Hv. injection Hs as ->. injection Hv as <-.
    apply int_magnitude_ge. exact H.
Qed.

Lemma int_sign (x : f64) (s : bool) (v : Z) :
  sign_of x = Some s -> int x = Ok v -> if s then v <= 0 else 0 <= v.
Proof.
  destruct x as [s' | s' | | s' m e]; intros Hs Hv; simpl in Hs;
    try discriminate.
  - rewrite int_zero in Hv. injection Hv as <-. destruct s; lia.
  - rewrite int_finite in Hv. injection Hs as ->. injection Hv as <-.
    pose proof (int_magnitude_nonneg m e). destruct s; lia.
Qed.

Lemma int_raise (x : f64) (e : exn) :
  int x = Raise e -> e = ValueError \/ e = OverflowError.
Proof.
  destruct x; simpl; intros H; try discriminate; injection H as <-; auto.
Qed.

Lemma int_ok_finite (x : f64) (v : Z) : int x = Ok v -> finite x = true.
Proof. destruct x; simpl; intros H; try discriminate; reflexivity. Qed.

Lemma within_finite (b : Z) (x : f64) : within b x = true -> finite x = true.
Proof. destruct x; simpl; intros H; try discriminate; reflexivity. Qed.

Lemma within_mono (b b' : Z) (x : f64) :
  b <= b' -> within b x = true -> within b' x = true.
Proof.
  intros Hb. destruct x as [s | s | | s m e]; simpl; auto.
  - rewrite !Z.leb_le. lia.
  - apply mag_le_mono; lia.
Qed.

(** ** Products *)

Lemma round_opp (s : bool) (M E : Z) (l : location) :
  binary_round_aux prec emax (negb s) M E l
  = SFopp (binary_round_aux prec emax s M E l).
Proof.
  unfold binary_round_aux.
  destruct (shr_fexp prec emax M E l) as [mrs e1].
  destruct (shr_fexp prec emax _ e1 loc_Exact) as [mrs2 e2].
  destruct (shr_m mrs2); simpl; try reflexivity.
  destruct (e2 <=? emax - prec); reflexivity.
Qed.

Lemma fmul_comm (x y : f64) : fmul x y = fmul y x.
Proof.
  unfold fmul.
  destruct x as [sx | sx | | sx mx ex], y as [sy | sy | | sy my ey];
    simpl; try rewrite (xorb_comm sx sy); try reflexivity.
  rewrite (Pos.mul_comm mx my), (Z.add_comm ex ey). reflexivity.
Qed.

Lemma fmul_opp_l (x y : f64) : fmul (SFopp x) y = SFopp (fmul x y).
Proof.
  unfold fmul.
  destruct x as [sx | sx | | sx mx ex], y as [sy | sy | | sy my ey];
    simpl; try reflexivity;
    try (destruct sx, sy; reflexivity).
  replace (xorb (negb sx) sy) with (negb (xorb sx sy)) by (destruct sx, sy; reflexivity).
  apply round_opp.
Qed.

Lemma fmul_opp_r (x y : f64) : fmul x (SFopp y) = SFopp (fmul x y).
Proof. rewrite fmul_comm, fmul_opp_l, fmul_comm. reflexivity. Qed.

Lemma fmul_nan_l (y : f64) : fmul S754_nan y = S754_nan.
Proof. reflexivity. Qed.

Lemma fmul_nan_r (x : f64) : fmul x S754_nan = S754_nan.
Proof. destruct x; reflexivity. Qed.

(** The product of two floats within [bx] and [by] is within [bx * by]. *)
Lemma fmul_within (bx by_ b : Z) (x y : f64) :
  within bx x = true -> within by_ y = true ->
  0 <= bx -> 0 <= by_ -> bx * by_ <= b < 2 ^ 53 ->
  within b (fmul x y) = true.
Proof.
  intros Hx Hy Hbx Hby Hb. unfold fmul.
  destruct x as [sx | sx | | sx mx ex], y as [sy | sy | | sy my ey];
    simpl in Hx, Hy |- *; try discriminate;
    try (apply Z.leb_le; nia).
  apply round_within; [lia | nia |]. left. split; [reflexivity |].
  set (kx := Z.max 0 (- ex)). set (ky := Z.max 0 (- ey)).
  apply (mag_le_scale _ _ _ kx) in Hx; [| unfold kx; lia | unfold kx; lia].
  apply (mag_le_scale _ _ _ ky) in Hy; [| unfold ky; lia | unfold ky; lia].
  apply (mag_le_scale _ _ _ (kx + ky)); [unfold kx, ky; lia | unfold kx, ky; lia |].
  replace (ex + ey + (kx + ky)) with ((ex + kx) + (ey + ky)) by lia.
  rewrite (Z.pow_add_r 2 (ex + kx) (ey + ky)), (Z.pow_add_r 2 kx ky)
    by (unfold kx, ky; lia).
  pose proof (pow2_pos kx ltac:(unfold kx; lia)).
  pose proof (pow2_pos ky ltac:(unfold ky; lia)).
  pose proof (pow2_pos (ex + kx) ltac:(unfold kx; lia)).
  pose proof (pow2_pos (ey + ky) ltac:(unfold ky; lia)).
  rewrite Pos2Z.inj_mul.
  assert (H3 : Zpos mx * 2 ^ (ex + kx) * (Zpos my * 2 ^ (ey + ky))
               <= bx * 2 ^ kx * (by_ * 2 ^ ky)).
  { apply Z.mul_le_mono_nonneg; nia. }
  assert (H4 : bx * 2 ^ kx * (by_ * 2 ^ ky) <= b * (2 ^ kx * 2 ^ ky)).
  { replace (bx * 2 ^ kx * (by_ * 2 ^ ky)) with (bx * by_ * (2 ^ kx * 2 ^ ky)) by ring.
    apply Z.mul_le_mono_nonneg_r; nia. }
  replace (Zpos mx * Zpos my * (2 ^ (ex + kx) * 2 ^ (ey + ky)))
    with (Zpos mx * 2 ^ (ex + kx) * (Zpos my * 2 ^ (ey + ky))) by ring.
  lia.
Qed.

(** The product of a float of at least [bx] and a float [my * 2^ey] with
    [b <= bx * my * 2^ey] is at least [b]. *)
Lemma fmul_at_least (bx b : Z) (x : f64) (sy : bool) (my : positive) (ey : Z) :
  at_least bx x = true -> finite x = true -> 0 < bx -> 0 < b < 2 ^ 53 ->
  mag_ge (bx * Zpos my) ey b = true ->
  at_least b (fmul x (S754_finite sy my ey)) = true.
Proof.
  intros Hx Hfx Hbx Hb Hy. unfold fmul.
  destruct x as [sx | sx | | sx mx ex]; simpl in Hx, Hfx |- *; try discriminate.
  { apply Z.leb_le in Hx. lia. }
  apply round_at_least; [lia | lia |].
  set (kx := Z.max 0 (- ex)). set (ky := Z.max 0 (- ey)).
  apply (mag_ge_scale _ _ _ kx) in Hx; [| unfold kx; lia | unfold kx; lia].
  apply (mag_ge_scale _ _ _ ky) in Hy; [| unfold ky; lia | unfold ky; lia].
  apply (mag_ge_scale _ _ _ (kx + ky)); [unfold kx, ky; lia | unfold kx, ky; lia |].
  replace (ex + ey + (kx + ky)) with ((ex + kx) + (ey + ky)) by lia.
  rewrite (Z.pow_add_r 2 (ex + kx) (ey + ky)), (Z.pow_add_r 2 kx ky)
    by (unfold kx, ky; lia).
  pose proof (pow2_pos kx ltac:(unfold kx; lia)).
  pose proof (pow2_pos ky ltac:(unfold ky; lia)).
  pose proof (pow2_pos (ex + kx) ltac:(unfold kx; lia)).
  pose proof (pow2_pos (ey + ky) ltac:(unfold ky; lia)).
  rewrite Pos2Z.inj_mul.
  assert (H3 : b * 2 ^ ky * 2 ^ kx <= bx * Zpos my * 2 ^ (ey + ky) * 2 ^ kx).
  { apply Z.mul_le_mono_nonneg_r; lia. }
  assert (H4 : bx * 2 ^ kx * (Zpos my * 2 ^ (ey + ky))
               <= Zpos mx * 2 ^ (ex + kx) * (Zpos my * 2 ^ (ey + ky))).
  { apply Z.mul_le_mono_nonneg_r; nia. }
  replace (Zpos mx * Zpos my * (2 ^ (ex + kx) * 2 ^ (ey + ky)))
    with (Zpos mx * 2 ^ (ex + kx) * (Zpos my * 2 ^ (ey + ky))) by ring.
  replace (b * (2 ^ kx * 2 ^ ky)) with (b * 2 ^ ky * 2 ^ kx) by ring.
  replace (bx * Zpos my * 2 ^ (ey + ky) * 2 ^ kx)
    with (bx * 2 ^ kx * (Zpos my * 2 ^ (ey + ky))) in H3 by ring.
  lia.
Qed.

(** The sign of a product of finite floats. *)
Lemma fmul_sign (x y : f64) (sx sy : bool) :
  finite x = true -> finite y = true ->
  sign_of x = Some sx -> sign_of y = Some sy ->
  sign_of (fmul x y) = Some (xorb sx sy).
Proof.
  unfold fmul.
  destruct x as [s1 | s1 | | s1 mx ex], y as [s2 | s2 | | s2 my ey];
    simpl; intros Hfx Hfy Hx Hy; try discriminate;
    injection Hx as ->; injection Hy as ->; try reflexivity.
  apply round_sign. lia.
Qed.

(** ** From int to float *)

Lemma iter_xO (m d : positive) : Zpos (Pos.iter xO m d) = Zpos m * 2 ^ Zpos d.
Proof.
  induction d as [| d IH] using Pos.peano_ind.
  - simpl. lia.
  - rewrite Pos.iter_succ, Pos2Z.inj_succ, Z.pow_succ_r by lia.
    rewrite Pos2Z.inj_xO, IH. ring.
Qed.

Lemma shl_align_spec (mx : positive) (ex ex' : Z) :
  exists mz ez,
    shl_align mx ex ex' = (mz, ez) /\ ez = Z.min ex ex' /\
    Zpos mz = Zpos mx * 2 ^ (ex - ez).
Proof.
  unfold shl_align. destruct (ex' - ex) as [| d | d] eqn:Hd.
  - exists mx, ex. split; [reflexivity |]. split; [lia |].
    rewrite Z.sub_diag. simpl. lia.
  - exists mx, ex. split; [reflexivity |]. split; [lia |].
    rewrite Z.sub_diag. simpl. lia.
  - exists (Pos.iter xO mx d), ex'. split; [reflexivity |]. split; [lia |].
    rewrite iter_xO. f_equal. f_equal. lia.
Qed.

(** The conversion rounds the int itself: mantissa [mz], exponent [ez],
    with [mz * 2^ez = p]. *)
Lemma binary_round_int (s : bool) (p : positive) :
  exists mz ez,
    binary_round prec emax s p 0
      = binary_round_aux prec emax s (Zpos mz) ez loc_Exact /\
    -1074 <= ez <= 0 /\ Zpos mz = Zpos p * 2 ^ (- ez).
Proof.
  unfold binary_round.
  destruct (shl_align_spec p 0 (fexp prec emax (Zpos (digits2_pos p) + 0)))
    as (mz & ez & -> & Hez & Hmz).
  exists mz, ez. split; [reflexivity |]. rewrite fexp_eq in Hez.
  split; [lia |]. rewrite Hmz. f_equal.
Qed.

Lemma float_of_int_zero : float_of_int 0 = Ok (S754_zero false).
Proof. reflexivity. Qed.

Lemma float_of_int_rounds (z : Z) :
  z <> 0 ->
  exists mz ez,
    binary_normalize prec emax z 0 false
      = binary_round_aux prec emax (z <? 0) (Zpos mz) ez loc_Exact /\
    -1074 <= ez <= 0 /\ Zpos mz = Z.abs z * 2 ^ (- ez).
Proof.
  destruct z as [| p | p]; intros Hz; [lia | |]; simpl binary_normalize.
  - destruct (binary_round_int false p) as (mz & ez & H1 & H2 & H3).
    exists mz, ez. auto.
  - destruct (binary_round_int true p) as (mz & ez & H1 & H2 & H3).
    exists mz, ez. auto.
Qed.

(** The sign and the finiteness of a converted int. *)
Lemma float_of_int_sign (z : Z) (r : f64) :
  float_of_int z = Ok r ->
  finite r = true /\ sign_of r = Some (z <? 0) /\
  (z <> 0 -> exists m e, r = S754_finite (z <? 0) m e).
Proof.
  unfold float_of_int. destruct (Z.eq_dec z 0) as [-> | Hz].
  { simpl. intros H. injection H as <-. repeat split. intros H; lia. }
  destruct (float_of_int_rounds z Hz) as (mz & ez & -> & Hez & Hmz).
  destruct (round_nonzero (z <? 0) (Zpos mz) ez loc_Exact ltac:(lia) ltac:(lia))
    as [-> | (m & e & ->)].
  - discriminate.
  - intros H. injection H as <-. repeat split. intros _. eauto.
Qed.

Lemma float_of_int_raise (z : Z) (e : exn) :
  float_of_int z = Raise e -> e = OverflowError.
Proof.
  unfold float_of_int.
  destruct (binary_normalize prec emax z 0 false); intros H;
    try discriminate. injection H as <-. reflexivity.
Qed.

(** An int of magnitude at most [b < 2^53] converts, to a float within
    [b]. *)
Lemma float_of_int_within (z b : Z) :
  Z.abs z <= b < 2 ^ 53 ->
  exists r, float_of_int z = Ok r /\ within b r = true.
Proof.
  intros Hb. unfold float_of_int. destruct (Z.eq_dec z 0) as [-> | Hz].
  { eexists. split; [reflexivity |]. simpl. apply Z.leb_le. lia. }
  destruct (float_of_int_rounds z Hz) as (mz & ez & -> & Hez & Hmz).
  assert (Hw : within b (binary_round_aux prec emax (z <? 0) (Zpos mz) ez loc_Exact)
               = true).
  { apply round_within; [lia | lia |]. left. split; [reflexivity |].
    apply (mag_le_scale _ _ _ (- ez)); [lia | lia |].
    replace (ez + - ez) with 0 by lia. change (2 ^ 0) with 1.
    rewrite Hmz. pose proof (pow2_pos (- ez) ltac:(lia)). nia. }
  destruct (binary_round_aux prec emax (z <? 0) (Zpos mz) ez loc_Exact);
    try discriminate; eexists; split; try reflexivity; exact Hw.
Qed.

(** An int of at least [b] converts to a float of at least [b]. *)
Lemma float_of_int_at_least (z b : Z) (r : f64) :
  0 < b < 2 ^ 53 -> b <= z -> float_of_int z = Ok r ->
  at_least b r = true.
Proof.
  intros Hb Hz. unfold float_of_int.
  destruct (float_of_int_rounds z ltac:(lia)) as (mz & ez & -> & Hez & Hmz).
  assert (Hw : at_least b (binary_round_aux prec emax (z <? 0) (Zpos mz) ez loc_Exact)
               = true).
  { apply round_at_least; [lia | lia |].
    apply (mag_ge_scale _ _ _ (- ez)); [lia | lia |].
    replace (ez + - ez) with 0 by lia. change (2 ^ 0) with 1.
    rewrite Hmz. pose proof (pow2_pos (- ez) ltac:(lia)). nia. }
  destruct (binary_round_aux prec emax (z <? 0) (Zpos mz) ez loc_Exact);
    intros H; try discriminate; injection H as <-; exact Hw.
Qed.

(** ** True division of two ints *)

Lemma div_core_spec (a c : positive) :
  exists q e' l,
    SFdiv_core_binary prec emax (Zpos a) 0 (Zpos c) 0 = (q, e', l) /\
    e' = Z.min (fexp prec emax (Zdigits2 (Zpos a) - Zdigits2 (Zpos c))) 0 /\
    q = Zpos a * 2 ^ (- e') / Zpos c.
Proof.
  unfold SFdiv_core_binary.
  set (e' := Z.min (fexp prec emax (Zdigits2 (Zpos a) + 0 - (Zdigits2 (Zpos c) + 0)))
                   (0 - 0)).
  assert (He : e' = Z.min (fexp prec emax (Zdigits2 (Zpos a) - Zdigits2 (Zpos c))) 0).
  { unfold e'.
    replace (Zdigits2 (Zpos a) + 0 - (Zdigits2 (Zpos c) + 0))
      with (Zdigits2 (Zpos a) - Zdigits2 (Zpos c)) by lia.
    reflexivity. }
  assert (He0 : e' <= 0) by lia.
  set (m' := match 0 - 0 - e' with
             | Z0 => Zpos a
             | Zpos _ => Z.shiftl (Zpos a) (0 - 0 - e')
             | Zneg _ => 0
             end).
  assert (Hm : m' = Zpos a * 2 ^ (- e')).
  { unfold m'. destruct (0 - 0 - e') as [| p | p] eqn:Hs.
    - replace (- e') with 0 by lia. simpl. lia.
    - rewrite Z.shiftl_mul_pow2 by lia. f_equal. f_equal. lia.
    - lia. }
  pose proof (Z.div_eucl_eq m' (Zpos c) ltac:(lia)) as Hdiv.
  assert (Hq : fst (Z.div_eucl m' (Zpos c)) = m' / Zpos c) by reflexivity.
  destruct (Z.div_eucl m' (Zpos c)) as [q r]. simpl in Hq.
  eexists _, _, _. split; [reflexivity |]. split; [exact He |].
  rewrite Hq, Hm. reflexivity.
Qed.

Lemma quotient_pos_pos (a c : positive) :
  exists q e' l,
    quotient (Zpos a) (Zpos c) = binary_round_aux prec emax false q e' l /\
    e' = Z.min (fexp prec emax (Zdigits2 (Zpos a) - Zdigits2 (Zpos c))) 0 /\
    q = Zpos a * 2 ^ (- e') / Zpos c.
Proof.
  destruct (div_core_spec a c) as (q & e' & l & Hc & He & Hq).
  exists q, e', l. split; [| auto].
  unfold quotient. simpl. rewrite Hc. reflexivity.
Qed.

(** A quotient below [D] rounds to a float within [D]. *)
Lemma quotient_within (a c D : Z) :
  0 <= a -> 0 < c -> a < c * D -> D < 2 ^ 53 ->
  within D (quotient a c) = true /\ sign_of (quotient a c) = Some false.
Proof.
  intros Ha Hc Hlt HD.
  assert (HD0 : 0 < D) by nia.
  destruct c as [| c | c]; try lia.
  destruct a as [| a | a]; try lia.
  { split; [| reflexivity]. simpl. apply Z.leb_le. lia. }
  destruct (quotient_pos_pos a c) as (q & e' & l & -> & He & Hq).
  assert (He0 : e' <= 0) by lia.
  pose proof (pow2_pos (- e') ltac:(lia)) as Hp.
  assert (Hq0 : 0 <= q) by (rewrite Hq; apply Z.div_pos; lia).
  split; [| apply round_sign; assumption].
  apply round_within; [assumption | lia |]. right.
  apply (mag_le_scale _ _ _ (- e')); [lia | lia |].
  replace (e' + - e') with 0 by lia. change (2 ^ 0) with 1.
  assert (q < D * 2 ^ (- e')); [| lia].
  rewrite Hq. apply Z.div_lt_upper_bound; [lia |]. nia.
Qed.

Lemma truediv_within (a c D : Z) :
  0 <= a -> 0 < c -> a < c * D -> D < 2 ^ 53 ->
  exists t, truediv a c = Ok t /\ t = quotient a c /\
            within D t = true /\ sign_of t = Some false.
Proof.
  intros Ha Hc Hlt HD.
  destruct (quotient_within a c D Ha Hc Hlt HD) as [Hw Hs].
  unfold truediv. destruct (Z.eqb_spec c 0); [lia |].
  destruct (quotient a c); try discriminate; eexists; repeat split;
    try reflexivity; assumption.
Qed.

Lemma truediv_raise (a b : Z) (e : exn) :
  truediv a b = Raise e ->
  e = ZeroDivisionError /\ b = 0 \/ e = OverflowError /\ b <> 0.
Proof.
  unfold truediv. destruct (Z.eqb_spec b 0).
  - intros H. injection H as <-. auto.
  - destruct (quotient a b); intros H; try discriminate.
    injection H as <-. auto.
Qed.

Lemma truediv_nonzero (a b : Z) :
  b <> 0 -> truediv a b = Ok (quotient a b) \/ truediv a b = Raise OverflowError.
Proof.
  intros Hb. unfold truediv. destruct (Z.eqb_spec b 0); [lia |].
  destruct (quotient a b); auto.
Qed.

(** A quotient of positive ints does not underflow to zero, as long as the
    divisor is below 2^1074. *)
Lemma quotient_positive (a c : Z) :
  0 < a -> 0 < c < 2 ^ 1074 ->
  quotient a c = S754_infinity false \/
  exists m e, quotient a c = S754_finite false m e.
Proof.
  intros Ha Hc.
  destruct c as [| c | c]; try lia.
  destruct a as [| a | a]; try lia.
  destruct (quotient_pos_pos a c) as (q & e' & l & -> & He & Hq).
  rewrite fexp_eq in He.
  assert (He0 : -1074 <= e' <= 0) by lia.
  pose proof (pow2_pos (- e') ltac:(lia)) as Hp.
  apply round_nonzero; [| lia].
  assert (1 <= q); [| lia].
  rewrite Hq. apply Z.div_le_lower_bound; [lia |]. rewrite Z.mul_1_r.
  pose proof (Zdigits2_bounds (Zpos a) ltac:(lia)) as [Hlo _].
  pose proof (Zdigits2_bounds (Zpos c) ltac:(lia)) as [_ Hhi].
  pose proof (Zdigits2_pos (Zpos a) ltac:(lia)) as Hda.
  pose proof (Zdigits2_pos (Zpos c) ltac:(lia)) as Hdc.
  set (da := Zdigits2 (Zpos a)) in *. set (dc := Zdigits2 (Zpos c)) in *.
  assert (Hc' : Zpos c < 2 ^ Z.min dc 1074).
  { destruct (Z.min_spec dc 1074) as [[_ ->] | [_ ->]]; lia. }
  assert (Hexp : Z.min dc 1074 <= da - 1 + - e') by lia.
  assert (2 ^ Z.min dc 1074 <= 2 ^ (da - 1 + - e'))
    by (apply Z.pow_le_mono_r; lia).
  rewrite Z.pow_add_r in H by lia.
  nia.
Qed.

(** ** The value of a float *)

Lemma magnitude_value_pos (m : positive) (e : Z) :
  (0 < (if 0 <=? e then inject_Z (Zpos m * 2 ^ e)
        else Zpos m # Z.to_pos (2 ^ (- e))))%Q.
Proof.
  destruct (0 <=? e) eqn:He.
  - apply Z.leb_le in He. pose proof (pow2_pos e He).
    assert (0 < Zpos m * 2 ^ e) by nia.
    unfold Qlt. simpl. lia.
  - unfold Qlt. simpl. lia.
Qed.

Lemma magnitude_value_le (m : positive) (e b : Z) :
  mag_le (Zpos m) e b = true <->
  ((if 0 <=? e then inject_Z (Zpos m * 2 ^ e)
    else Zpos m # Z.to_pos (2 ^ (- e))) <= inject_Z b)%Q.
Proof.
  unfold mag_le. destruct (0 <=? e) eqn:He.
  - rewrite Z.leb_le, Zle_Qle. reflexivity.
  - apply Z.leb_gt in He. rewrite Z.leb_le. unfold Qle. simpl.
    rewrite to_pos_pow2 by lia. lia.
Qed.

Lemma positive_value (x : f64) :
  (0 < f64_value x)%Q -> exists m e, x = S754_finite false m e.
Proof.
  destruct x as [s | s | | s m e]; simpl; intros H;
    try (exfalso; revert H; apply Qlt_irrefl).
  pose proof (magnitude_value_pos m e) as Hp.
  destruct s; [| eauto]. exfalso. lra.
Qed.

Lemma nonpositive_value (x : f64) :
  finite x = true -> (f64_value x <= 0)%Q ->
  (exists s, x = S754_zero s) \/ exists m e, x = S754_finite true m e.
Proof.
  destruct x as [s | s | | s m e]; simpl; intros Hf H; try discriminate.
  - left. eauto.
  - right. pose proof (magnitude_value_pos m e) as Hp.
    destruct s; [eauto |]. exfalso. lra.
Qed.

Lemma unit_value (x : f64) :
  finite x = true -> (- 1 <= f64_value x <= 1)%Q -> within 1 x = true.
Proof.
  destruct x as [s | s | | s m e]; simpl; intros Hf [Hlo Hhi];
    try discriminate; [reflexivity |].
  apply magnitude_value_le. change (inject_Z 1) with 1%Q.
  destruct s; lra.
Qed.

Lemma within_value (b : Z) (x : f64) :
  within b x = true -> (- inject_Z b <= f64_value x <= inject_Z b)%Q.
Proof.
  destruct x as [s | s | | s m e]; simpl; intros H; try discriminate.
  - apply Z.leb_le in H. rewrite (Zle_Qle 0 b) in H.
    change (inject_Z 0) with 0%Q in H. lra.
  - apply magnitude_value_le in H.
    pose proof (magnitude_value_pos m e) as Hp.
    destruct s; lra.
Qed.

(** [int] of a finite float that is not negative: the floor of its
    value. *)
Lemma int_floor (x : f64) :
  finite x = true -> (0 <= f64_value x)%Q ->
  int x = Ok (Qfloor (f64_value x)).
Proof.
  intros Hf Hx. rewrite <- truncate_nonneg_floor by exact Hx.
  destruct x; try discriminate; reflexivity.
Qed.

Lemma int_ok (x : f64) (v : Z) :
  int x = Ok v -> finite x = true /\ v = truncate (f64_value x).
Proof.
  destruct x; simpl; intros H; try discriminate; injection H as <-; auto.
Qed.

Lemma sign_value (x : f64) :
  finite x = true -> sign_of x = Some false -> (0 <= f64_value x)%Q.
Proof.
  destruct x as [s | s | | s m e]; simpl; intros Hf Hs; try discriminate.
  injection Hs as ->. pose proof (magnitude_value_pos m e). lra.
Qed.

(** ** Constants of the script *)

Lemma two_pi_within : within 7 (fmul (b64 2) math_pi) = true.
Proof. reflexivity. Qed.

Lemma scale_within : within 32767 (b64 32767) = true.
Proof. reflexivity. Qed.

Lemma one_within : within 1 (b64 1.0) = true.
Proof. reflexivity. Qed.

Lemma fade_factor_within : within 1 (b64 0.005) = true.
Proof. reflexivity. Qed.


(** ** Loops *)

Lemma for_each_bind_inv {A B C} (f : A -> result B) (g : B -> result C)
    (l : list A) (cs : list C) :
  for_each (fun a => do b <- f a; g b) l = Ok cs ->
  exists bs, for_each f l = Ok bs /\ for_each g bs = Ok cs.
Proof.
  revert cs. induction l as [| a l IH]; intros cs; simpl.
  - intros [= <-]. exists []. split; reflexivity.
  - destruct (f a) as [b | e]; simpl; [| discriminate].
    destruct (g b) as [c | e] eqn:Hg; simpl; [| discriminate].
    destruct (for_each (fun a => do b <- f a; g b) l) as [cs' | e] eqn:Hl;
      simpl; [| discriminate].
    intros [= <-]. destruct (IH cs' eq_refl) as (bs & -> & Hbs).
    exists (b :: bs). simpl. rewrite Hg, Hbs. split; reflexivity.
Qed.

Lemma for_each_bind {A B C} (f : A -> result B) (g : B -> result C)
    (l : list A) (bs : list B) (cs : list C) :
  for_each f l = Ok bs -> for_each g bs = Ok cs ->
  for_each (fun a => do b <- f a; g b) l = Ok cs.
Proof.
  revert bs cs. induction l as [| a l IH]; intros bs cs; simpl.
  - intros [= <-]. simpl. auto.
  - destruct (f a) as [b | e]; simpl; [| discriminate].
    destruct (for_each f l) as [bs' | e]; simpl; [| discriminate].
    intros [= <-]. simpl.
    destruct (g b) as [c | e]; simpl; [| discriminate].
    destruct (for_each g bs') as [cs' | e] eqn:Hg; simpl; [| discriminate].
    intros [= <-]. rewrite (IH bs' cs' eq_refl Hg). reflexivity.
Qed.

Lemma for_each_nth {A B} (f : A -> result B) (l : list A) (bs : list B) :
  for_each f l = Ok bs ->
  length bs = length l /\
  forall k a, nth_error l k = Some a ->
    exists b, f a = Ok b /\ nth_error bs k = Some b.
Proof.
  revert bs. induction l as [| a l IH]; intros bs; simpl.
  - intros [= <-]. split; [reflexivity |]. intros [| k] a H; discriminate.
  - destruct (f a) as [b | e] eqn:Hb; simpl; [| discriminate].
    destruct (for_each f l) as [bs' | e]; simpl; [| discriminate].
    intros [= <-]. destruct (IH bs' eq_refl) as [Hlen Hnth].
    split; [simpl; congruence |].
    intros [| k] a' H; simpl in H |- *.
    + injection H as <-. eauto.
    + apply Hnth. exact H.
Qed.

Lemma for_each_total {A B} (f : A -> result B) (l : list A) :
  (forall a, In a l -> exists b, f a = Ok b) ->
  exists bs, for_each f l = Ok bs.
Proof.
  induction l as [| a l IH]; intros H; simpl.
  - eauto.
  - destruct (H a ltac:(now left)) as (b & ->).
    destruct IH as (bs & ->); [intros; apply H; now right |].
    simpl. eauto.
Qed.

Lemma for_each_pack (vs : list Z) (bs : list bytes) :
  for_each struct_pack_h vs = Ok bs ->
  Forall (fun v => -32768 <= v <= 32767) vs /\ bs = map (le_bytes 2) vs.
Proof.
  revert bs. induction vs as [| v vs IH]; intros bs; simpl.
  - intros [= <-]. split; [constructor | reflexivity].
  - destruct (struct_pack_h v) as [b | e] eqn:Hp; simpl; [| discriminate].
    destruct (for_each struct_pack_h vs) as [bs' | e]; simpl; [| discriminate].
    intros [= <-]. destruct (IH bs' eq_refl) as [Hall ->].
    unfold struct_pack_h in Hp.
    destruct ((-32768 <=? v) && (v <=? 32767)) eqn:Hr; [| discriminate].
    injection Hp as <-. apply andb_prop in Hr. destruct Hr as [H1 H2].
    apply Z.leb_le in H1, H2. split; [constructor; [lia | exact Hall] | reflexivity].
Qed.

Lemma for_each_pack_ok (vs : list Z) :
  Forall (fun v => -32768 <= v <= 32767) vs ->
  for_each struct_pack_h vs = Ok (map (le_bytes 2) vs).
Proof.
  induction 1 as [| v vs Hv _ IH]; simpl; [reflexivity |].
  rewrite (struct_pack_h_ok v Hv), IH. reflexivity.
Qed.

(** ** The envelope *)

Lemma ramp_of_cases (fade n i : Z) :
  match ramp_of fade n i with
  | fade_in => i < fade
  | fade_out => fade <= i /\ i > n - fade
  | sustain => fade <= i /\ i <= n - fade
  end.
Proof.
  unfold ramp_of.
  destruct (Z.ltb_spec i fade); [assumption |].
  destruct (Z.gtb_spec i (n - fade)); lia.
Qed.

Lemma float_of_int_in_format (z : Z) (r : f64) :
  float_of_int z = Ok r -> in_format r = true.
Proof.
  unfold float_of_int. destruct (Z.eq_dec z 0) as [-> | Hz].
  { intros [= <-]. reflexivity. }
  destruct (float_of_int_rounds z Hz) as (mz & ez & -> & _ & _).
  destruct (round_in_format (z <? 0) (Zpos mz) ez loc_Exact ltac:(lia))
    as [-> | H]; [discriminate |].
  destruct (binary_round_aux prec emax (z <? 0) (Zpos mz) ez loc_Exact);
    intros [= <-]; try discriminate; exact H.
Qed.

Lemma int_in_format (x : f64) :
  in_format x = true -> exists v, int x = Ok v /\ Z.abs v < 2 ^ 1024.
Proof.
  destruct x as [s | s | | s m e]; intros H; simpl in H; try discriminate.
  - exists 0. split; [reflexivity |]. simpl. lia.
  - rewrite int_finite. eexists. split; [reflexivity |].
    apply andb_prop in H. destruct H as [Hm He].
    apply Z.ltb_lt in Hm. apply Z.leb_le in He.
    assert (Hb : 0 <= int_magnitude m e < 2 ^ 1024).
    { split; [apply int_magnitude_nonneg |]. unfold int_magnitude.
      destruct (0 <=? e) eqn:H0.
      - apply Z.leb_le in H0.
        assert (2 ^ e <= 2 ^ 971) by (apply Z.pow_le_mono_r; lia).
        change (2 ^ 1024) with (2 ^ 53 * 2 ^ 971).
        pose proof (pow2_pos e H0). nia.
      - apply Z.leb_gt in H0.
        apply Z.le_lt_trans with (Zpos m);
          [| eapply Z.lt_trans; [exact Hm | reflexivity]].
        apply Z.div_le_upper_bound; [apply pow2_pos; lia |].
        pose proof (pow2_pos (- e) ltac:(lia)). nia. }
    destruct s; lia.
Qed.

Lemma in_format_finite (x : f64) : in_format x = true -> finite x = true.
Proof. destruct x; simpl; intros H; try discriminate; reflexivity. Qed.

Lemma Zdigits2_mul (a b : positive) :
  Zdigits2 (Zpos (a * b)) <= Zdigits2 (Zpos a) + Zdigits2 (Zpos b).
Proof.
  pose proof (Zdigits2_bounds (Zpos a) ltac:(lia)) as [_ Ha].
  pose proof (Zdigits2_bounds (Zpos b) ltac:(lia)) as [_ Hb].
  pose proof (Zdigits2_pos (Zpos a) ltac:(lia)).
  pose proof (Zdigits2_pos (Zpos b) ltac:(lia)).
  apply Zdigits2_le; [lia | lia |].
  rewrite Z.pow_add_r, Pos2Z.inj_mul by lia. nia.
Qed.

(** The product of a float of the format by 0.005 is in the format: no
    overflow. *)
Lemma fade_product_in_format (r : f64) :
  in_format r = true -> in_format (fmul r (b64 0.005)) = true.
Proof.
  destruct r as [s | s | | s m e]; intros H; simpl in H; try discriminate.
  - reflexivity.
  - apply andb_prop in H. destruct H as [Hm He].
    apply Z.ltb_lt in Hm. apply Z.leb_le in He.
    change (b64 0.005) with (S754_finite false 5764607523034235 (-60)).
    unfold fmul. simpl SFmul.
    apply round_finite; [lia | | lia].
    pose proof (Zdigits2_mul m 5764607523034235) as Hd.
    assert (Zdigits2 (Zpos m) <= 53) by (apply Zdigits2_le; lia).
    change (Zdigits2 (Zpos 5764607523034235)) with 53 in Hd. lia.
Qed.

(** The fade length is computed whenever the sample rate converts. *)
Lemma fade_samples_defined (sample_rate : Z) (rate : f64) :
  float_of_int sample_rate = Ok rate ->
  exists fade,
    fade_samples sample_rate = Ok fade /\
    int (fmul rate (b64 0.005)) = Ok fade /\ Z.abs fade < 2 ^ 1024.
Proof.
  intros Hr. unfold fade_samples. rewrite Hr. cbn [bind].
  pose proof (float_of_int_in_format _ _ Hr) as Hf.
  destruct (int_in_format _ (fade_product_in_format rate Hf)) as (v & Hv & Hb).
  exists v. auto.
Qed.

Lemma fade_samples_inv (sample_rate fade : Z) :
  fade_samples sample_rate = Ok fade ->
  exists rate, float_of_int sample_rate = Ok rate /\
               int (fmul rate (b64 0.005)) = Ok fade /\ Z.abs fade < 2 ^ 1024.
Proof.
  intros H. unfold fade_samples in H.
  destruct (float_of_int sample_rate) as [rate | e] eqn:Hr; [| discriminate].
  cbn [bind] in H. exists rate. split; [reflexivity |]. split; [exact H |].
  destruct (fade_samples_defined sample_rate rate Hr) as (v & _ & Hv & Hb).
  congruence.
Qed.

(** Inside the buffer the envelope is defined, and is a factor in [0, 1]:
    no division by zero is reached. *)
Lemma envelope_defined (sample_rate n i fade : Z) :
  fade_samples sample_rate = Ok fade -> 0 <= i < n ->
  exists e,
    envelope sample_rate n i = Ok e /\
    within 1 e = true /\ sign_of e = Some false /\
    e = match ramp_of fade n i with
        | fade_in => quotient i fade
        | fade_out => quotient (n - i) fade
        | sustain => b64 1.0
        end.
Proof.
  intros Hfade Hi. unfold envelope. rewrite Hfade. cbn [bind].
  pose proof (ramp_of_cases fade n i) as Hr.
  destruct (ramp_of fade n i).
  - destruct (truediv_within i fade 1) as (t & -> & -> & Hw & Hs);
      try lia. eauto.
  - destruct (truediv_within (n - i) fade 1) as (t & -> & -> & Hw & Hs);
      try lia. eauto.
  - eexists. repeat split.
Qed.

Lemma envelope_inv (sample_rate n i : Z) (e : f64) :
  envelope sample_rate n i = Ok e ->
  exists fade, fade_samples sample_rate = Ok fade.
Proof.
  unfold envelope. destruct (fade_samples sample_rate); [eauto | discriminate].
Qed.

Lemma envelope_raise (sample_rate n i : Z) (e : exn) :
  0 <= i < n -> envelope sample_rate n i = Raise e -> e = OverflowError.
Proof.
  intros Hi. destruct (fade_samples sample_rate) as [fade | e'] eqn:Hf.
  - destruct (envelope_defined sample_rate n i fade Hf Hi) as (x & -> & _).
    discriminate.
  - unfold envelope. rewrite Hf. cbn [bind]. intros [= <-].
    unfold fade_samples in Hf.
    destruct (float_of_int sample_rate) as [rate | e''] eqn:Hr; cbn [bind] in Hf.
    + destruct (fade_samples_defined _ _ Hr) as (v & _ & Hv & _). congruence.
    + injection Hf as <-. apply (float_of_int_raise _ _ Hr).
Qed.

(** ** The loop body *)

Lemma math_sin_ok (libm_sin : f64 -> f64) (x s : f64) :
  math_sin libm_sin x = Ok s ->
  finite x = true /\ s = libm_sin x \/ x = S754_nan /\ s = S754_nan.
Proof.
  destruct x; simpl; intros [= <-]; auto.
Qed.

Lemma math_sin_raise (libm_sin : f64 -> f64) (x : f64) (e : exn) :
  math_sin libm_sin x = Raise e -> e = ValueError.
Proof. destruct x; simpl; intros [= <-]; reflexivity. Qed.

Lemma math_sin_finite (libm_sin : f64 -> f64) (x : f64) :
  finite x = true -> math_sin libm_sin x = Ok (libm_sin x).
Proof. destruct x; simpl; intros H; try discriminate; reflexivity. Qed.

(** What a sample is, when the loop body returns one. *)
Lemma pcm_value_inv (libm_sin : f64 -> f64) (frequency : f64) (sample_rate : Z)
    (amplitude : f64) (n i v : Z) :
  pcm_value libm_sin frequency sample_rate amplitude n i = Ok v ->
  exists t e,
    truediv i sample_rate = Ok t /\
    envelope sample_rate n i = Ok e /\
    finite (fmul (fmul (fmul (b64 2) math_pi) frequency) t) = true /\
    int (fmul (fmul (fmul amplitude
                       (libm_sin (fmul (fmul (fmul (b64 2) math_pi) frequency) t)))
                    e)
              (b64 32767)) = Ok v.
Proof.
  unfold pcm_value.
  destruct (truediv i sample_rate) as [t | e0]; cbn [bind]; [| discriminate].
  destruct (math_sin libm_sin _) as [s | e0] eqn:Hs; cbn [bind]; [| discriminate].
  destruct (envelope sample_rate n i) as [e | e0]; cbn [bind]; [| discriminate].
  intros Hv. apply math_sin_ok in Hs. destruct Hs as [[Hf ->] | [_ ->]].
  - exists t, e. auto.
  - rewrite fmul_nan_r in Hv. discriminate.
Qed.

Lemma pcm_value_intro (libm_sin : f64 -> f64) (frequency : f64) (sample_rate : Z)
    (amplitude : f64) (n i : Z) (t e : f64) :
  truediv i sample_rate = Ok t ->
  envelope sample_rate n i = Ok e ->
  finite (fmul (fmul (fmul (b64 2) math_pi) frequency) t) = true ->
  pcm_value libm_sin frequency sample_rate amplitude n i =
    int (fmul (fmul (fmul amplitude
                       (libm_sin (fmul (fmul (fmul (b64 2) math_pi) frequency) t)))
                    e)
              (b64 32767)).
Proof.
  intros Ht He Hf. unfold pcm_value. rewrite Ht. cbn [bind].
  rewrite (math_sin_finite _ _ Hf). cbn [bind]. rewrite He. reflexivity.
Qed.

Section Bounded_sine.

Variable libm_sin : f64 -> f64.
Hypothesis sine_bounded : sine_in_range libm_sin.

(** The scaled sample of an amplitude within 1 and an envelope factor
    within 1 is within 32767. *)
Lemma scaled_sample_within (amplitude x e : f64) :
  within 1 amplitude = true -> finite x = true -> within 1 e = true ->
  within 32767 (fmul (fmul (fmul amplitude (libm_sin x)) e) (b64 32767)) = true.
Proof.
  intros Ha Hx He.
  apply (fmul_within 1 32767); [| apply scale_within | lia | lia | lia].
  apply (fmul_within 1 1); [| exact He | lia | lia | lia].
  apply (fmul_within 1 1); [exact Ha | apply sine_bounded; exact Hx | lia | lia | lia].
Qed.

(** Every sample the loop body returns is a 16-bit value. *)
Lemma pcm_value_range (frequency : f64) (sample_rate : Z) (amplitude : f64)
    (n i v : Z) :
  within 1 amplitude = true -> 0 <= i < n ->
  pcm_value libm_sin frequency sample_rate amplitude n i = Ok v ->
  -32767 <= v <= 32767.
Proof.
  intros Ha Hi Hv.
  destruct (pcm_value_inv _ _ _ _ _ _ _ Hv) as (t & e & Ht & He & Hf & Hint).
  destruct (envelope_inv _ _ _ _ He) as (fade & Hfade).
  destruct (envelope_defined _ n i _ Hfade Hi) as (e' & He' & Hw & _).
  assert (e' = e) as -> by congruence.
  destruct (int_within _ _ (scaled_sample_within amplitude _ e Ha Hf Hw))
    as (v' & Hv' & Hb).
  assert (v' = v) as -> by congruence. lia.
Qed.

(** The loop body returns a sample as long as the phase stays below
    2^53: frequency within [F], time within [D], [7 * F * D < 2^53]. *)
Lemma pcm_value_defined (frequency : f64) (sample_rate : Z) (amplitude : f64)
    (n i F D : Z) :
  within 1 amplitude = true ->
  within F frequency = true -> 0 <= F -> 0 <= D ->
  0 < sample_rate < 2 ^ 53 -> 0 <= i < n -> i < sample_rate * D ->
  D < 2 ^ 53 -> 7 * F * D < 2 ^ 53 ->
  exists v,
    pcm_value libm_sin frequency sample_rate amplitude n i = Ok v /\
    -32767 <= v <= 32767.
Proof.
  intros Ha HF HF0 HD0 Hsr Hi HiD HD HFD.
  destruct (truediv_within i sample_rate D) as (t & Ht & _ & Hwt & _); try lia.
  assert (Hx : within (7 * F * D) (fmul (fmul (fmul (b64 2) math_pi) frequency) t)
               = true).
  { apply (fmul_within (7 * F) D); [| exact Hwt | nia | lia | lia].
    apply (fmul_within 7 F); [apply two_pi_within | exact HF | lia | lia | nia]. }
  apply within_finite in Hx.
  destruct (float_of_int_within sample_rate sample_rate ltac:(lia)) as (r & Hr & _).
  destruct (fade_samples_defined _ _ Hr) as (fade & Hfade & _).
  destruct (envelope_defined _ n i _ Hfade Hi) as (e & He & Hw & _).
  rewrite (pcm_value_intro libm_sin _ _ amplitude n i t e Ht He Hx).
  destruct (int_within _ _ (scaled_sample_within amplitude _ e Ha Hx Hw))
    as (v & Hv & Hb).
  exists v. split; [exact Hv | lia].
Qed.

End Bounded_sine.

(** The exceptions of the loop body, for an index of the buffer. *)
Lemma pcm_value_raise (libm_sin : f64 -> f64) (frequency : f64)
    (sample_rate : Z) (amplitude : f64) (n i : Z) (e : exn) :
  0 <= i < n ->
  pcm_value libm_sin frequency sample_rate amplitude n i = Raise e ->
  e = ValueError \/ e = OverflowError \/ e = ZeroDivisionError /\ sample_rate = 0.
Proof.
  intros Hi. unfold pcm_value.
  destruct (truediv i sample_rate) as [t | e0] eqn:Ht; cbn [bind].
  - destruct (math_sin libm_sin _) as [s | e1] eqn:Hs; cbn [bind].
    + destruct (envelope sample_rate n i) as [x | e2] eqn:He; cbn [bind].
      * intros H. apply int_raise in H. tauto.
      * intros [= <-]. right. left. apply (envelope_raise _ _ _ _ Hi He).
    + intros [= <-]. left. apply (math_sin_raise _ _ _ Hs).
  - intros [= <-]. apply truediv_raise in Ht. tauto.
Qed.

(** ** The whole buffer *)

(** The number of samples: line 24, spelled out. *)
Lemma num_samples_inv (sample_rate : Z) (duration : f64) (n : Z) :
  num_samples sample_rate duration = Ok n ->
  exists rate,
    float_of_int sample_rate = Ok rate /\
    finite (fmul rate duration) = true /\
    n = truncate (f64_value (fmul rate duration)).
Proof.
  unfold num_samples.
  destruct (float_of_int sample_rate) as [rate | e]; cbn [bind]; [| discriminate].
  intros H. apply int_ok in H. exists rate. tauto.
Qed.

Lemma num_samples_raise (sample_rate : Z) (duration : f64) (e : exn) :
  num_samples sample_rate duration = Raise e ->
  e = ValueError \/ e = OverflowError.
Proof.
  unfold num_samples.
  destruct (float_of_int sample_rate) as [rate | e'] eqn:Hr; cbn [bind].
  - apply int_raise.
  - intros [= <-]. right. apply (float_of_int_raise _ _ Hr).
Qed.

(** With a sample rate of 0 the loop does not run. *)
Lemma num_samples_zero_rate (duration : f64) (n : Z) :
  num_samples 0 duration = Ok n -> n = 0.
Proof.
  unfold num_samples. rewrite float_of_int_zero. cbn [bind].
  destruct duration as [s | s | | s m e]; simpl; intros [= <-]; reflexivity.
Qed.

Lemma generate_sine_wave_inv (libm_sin : f64 -> f64) (frequency duration : f64)
    (sample_rate : Z) (amplitude : f64) (buf : bytes) :
  generate_sine_wave libm_sin frequency duration sample_rate amplitude = Ok buf ->
  exists n vs,
    num_samples sample_rate duration = Ok n /\
    for_each (pcm_value libm_sin frequency sample_rate amplitude n) (range n)
      = Ok vs /\
    Forall (fun v => -32768 <= v <= 32767) vs /\
    buf = concat (map (le_bytes 2) vs) /\
    unpack_samples buf = vs.
Proof.
  unfold generate_sine_wave.
  destruct (num_samples sample_rate duration) as [n | e]; cbn [bind];
    [| discriminate].
  destruct (for_each _ (range n)) as [bs | e] eqn:Hl; cbn [bind];
    [| discriminate].
  intros [= <-].
  destruct (for_each_bind_inv _ _ _ _ Hl) as (vs & Hvs & Hp).
  destruct (for_each_pack _ _ Hp) as [Hall ->].
  exists n, vs. repeat split; try assumption.
  apply unpack_samples_concat. exact Hall.
Qed.

Lemma generate_sine_wave_intro (libm_sin : f64 -> f64)
    (frequency duration : f64) (sample_rate : Z) (amplitude : f64)
    (n : Z) (vs : list Z) :
  num_samples sample_rate duration = Ok n ->
  for_each (pcm_value libm_sin frequency sample_rate amplitude n) (range n)
    = Ok vs ->
  Forall (fun v => -32768 <= v <= 32767) vs ->
  generate_sine_wave libm_sin frequency duration sample_rate amplitude
    = Ok (concat (map (le_bytes 2) vs)).
Proof.
  intros Hn Hvs Hall. unfold generate_sine_wave. rewrite Hn. cbn [bind].
  rewrite (for_each_bind _ _ _ _ _ Hvs (for_each_pack_ok vs Hall)).
  reflexivity.
Qed.

(** The exceptions of the synthesizer: the two of the float conversions, and
    the one of the packing.  It never divides by zero. *)
Lemma generate_sine_wave_raise (libm_sin : f64 -> f64)
    (frequency duration : f64) (sample_rate : Z) (amplitude : f64) (e : exn) :
  generate_sine_wave libm_sin frequency duration sample_rate amplitude = Raise e ->
  e = ValueError \/ e = OverflowError \/ e = StructError.
Proof.
  unfold generate_sine_wave.
  destruct (num_samples sample_rate duration) as [n | e0] eqn:Hn; cbn [bind].
  - destruct (for_each _ (range n)) as [bs | e1] eqn:Hl; cbn [bind];
      [discriminate |].
    intros [= <-]. apply for_each_raise in Hl.
    destruct Hl as (i & Hi & Hbody). apply range_In in Hi.
    destruct (pcm_value libm_sin frequency sample_rate amplitude n i)
      as [v | e2] eqn:Hv; cbn [bind] in Hbody.
    + apply struct_pack_h_raise in Hbody. tauto.
    + injection Hbody as <-.
      destruct (pcm_value_raise _ _ _ _ _ _ _ Hi Hv) as [H | [H | [_ H]]];
        [tauto | tauto |].
      subst sample_rate. apply num_samples_zero_rate in Hn. lia.
  - intros [= <-]. apply num_samples_raise in Hn. tauto.
Qed.

(** The number of samples of a duration within [D]. *)
Lemma num_samples_within (sample_rate : Z) (duration : f64) (D : Z) :
  within D duration = true -> 0 <= D ->
  0 <= sample_rate -> sample_rate * D < 2 ^ 53 -> sample_rate < 2 ^ 53 ->
  exists n, num_samples sample_rate duration = Ok n /\
            - (sample_rate * D) <= n <= sample_rate * D.
Proof.
  intros Hd HD Hsr Hb Hsr'.
  destruct (float_of_int_within sample_rate sample_rate ltac:(lia)) as (r & Hr & Hw).
  unfold num_samples. rewrite Hr. cbn [bind].
  apply int_within. apply (fmul_within sample_rate D); try assumption; lia.
Qed.

(** The synthesizer returns a buffer as long as the sample count and the
    phase stay below 2^53. *)
Lemma generate_sine_wave_defined (libm_sin : f64 -> f64)
    (frequency duration : f64) (sample_rate : Z) (amplitude : f64) (F D : Z) :
  sine_in_range libm_sin ->
  within 1 amplitude = true ->
  within F frequency = true -> within D duration = true ->
  0 <= F -> 1 <= D -> 0 < sample_rate ->
  sample_rate * D < 2 ^ 53 -> 7 * F * D < 2 ^ 53 ->
  exists buf,
    generate_sine_wave libm_sin frequency duration sample_rate amplitude = Ok buf.
Proof.
  intros Hsin Ha HF HD HF0 HD1 Hsr HsD HFD.
  assert (Hsr' : sample_rate < 2 ^ 53) by nia.
  assert (HD' : D < 2 ^ 53) by nia.
  destruct (num_samples_within sample_rate duration D HD ltac:(lia) ltac:(lia) HsD Hsr')
    as (n & Hn & Hb).
  destruct (for_each_total
              (pcm_value libm_sin frequency sample_rate amplitude n) (range n))
    as (vs & Hvs).
  { intros i Hi. apply range_In in Hi.
    destruct (pcm_value_defined libm_sin Hsin frequency sample_rate amplitude
                n i F D) as (v & Hv & _); try assumption; try lia.
    eauto. }
  exists (concat (map (le_bytes 2) vs)).
  apply (generate_sine_wave_intro _ _ _ _ _ n vs Hn Hvs).
  apply List.Forall_forall. intros v Hin.
  destruct (In_nth_error _ _ Hin) as (k & Hk).
  destruct (for_each_nth _ _ _ Hvs) as [Hlen Hnth].
  assert (Hlt : (k < length (range n))%nat).
  { rewrite <- Hlen. apply nth_error_Some. congruence. }
  destruct (nth_error (range n) k) as [i |] eqn:Hki;
    [| apply nth_error_None in Hki; lia].
  destruct (Hnth k i Hki) as (v' & Hv' & Hkv).
  assert (v' = v) as -> by congruence.
  apply nth_error_In in Hki. apply range_In in Hki.
  pose proof (pcm_value_range libm_sin Hsin _ _ _ _ _ _ Ha Hki Hv'). lia.
Qed.

(** ** The sine used to run the model stays in [-1, 1] *)

Lemma sin_approx_range : sine_in_range sin_approx.
Proof.
  intros x _. unfold sin_approx.
  destruct (int _) as [k | e]; [| reflexivity].
  destruct (float_of_int k) as [turns | e]; [| reflexivity].
  match goal with |- within 1 (if within 1 ?y then _ else _) = true =>
    destruct (within 1 y) eqn:Hy; [exact Hy | reflexivity]
  end.
Qed.

(** ** The synthesizer's claims *)

Lemma valid_amplitude frequency duration sample_rate amplitude :
  valid_input frequency duration sample_rate amplitude ->
  within 1 amplitude = true.
Proof.
  intros (_ & _ & _ & _ & _ & Hf & Ha). apply unit_value; [exact Hf |]. lra.
Qed.

Lemma valid_sample_rate frequency duration sample_rate amplitude :
  valid_input frequency duration sample_rate amplitude -> 0 < sample_rate.
Proof. intros (_ & _ & _ & _ & H & _). exact H. Qed.

Lemma generated_length libm_sin frequency sample_rate amplitude n vs :
  for_each (pcm_value libm_sin frequency sample_rate amplitude n) (range n)
    = Ok vs ->
  length vs = Z.to_nat n.
Proof.
  intros H. destruct (for_each_nth _ _ _ H) as [-> _]. apply range_length.
Qed.

Lemma generated_sample libm_sin frequency sample_rate amplitude n vs i :
  for_each (pcm_value libm_sin frequency sample_rate amplitude n) (range n)
    = Ok vs ->
  0 <= i < n ->
  exists v, pcm_value libm_sin frequency sample_rate amplitude n i = Ok v /\
            nth_error vs (Z.to_nat i) = Some v.
Proof.
  intros H Hi. destruct (for_each_nth _ _ _ H) as [_ Hnth].
  apply Hnth. apply range_nth. exact Hi.
Qed.

(** A valid tone gives a buffer as long as the sample count and the phase
    stay below 2^53. *)
Lemma valid_tone_defined (libm_sin : f64 -> f64)
    (frequency duration : f64) (sample_rate : Z) (amplitude : f64) (F D : Z) :
  sine_in_range libm_sin ->
  valid_input frequency duration sample_rate amplitude ->
  within F frequency = true -> within D duration = true ->
  1 <= D -> sample_rate * D < 2 ^ 53 -> 7 * F * D < 2 ^ 53 ->
  exists buf,
    generate_sine_wave libm_sin frequency duration sample_rate amplitude
      = Ok buf.
Proof.
  intros Hsin Hvalid HF HD HD1 HsD HFD.
  pose proof (valid_amplitude _ _ _ _ Hvalid) as Ha.
  pose proof (valid_sample_rate _ _ _ _ Hvalid) as Hsr.
  assert (HF0 : 0 <= F).
  { destruct (Z_le_gt_dec 0 F) as [H | H]; [exact H |]. exfalso.
    destruct Hvalid as (_ & Hpos & _).
    destruct (positive_value _ Hpos) as (m & e & ->).
    apply within_value in HF. assert (H' : F < 0) by lia.
    rewrite (Zlt_Qlt F 0) in H'. change (inject_Z 0) with 0%Q in H'. lra. }
  apply (generate_sine_wave_defined libm_sin _ _ _ _ F D); assumption.
Qed.



(** C2, as stated, fails where the two ramps overlap.  For the valid tone of
    3 ms at 44100 Hz (132 samples, fade_samples = 220), sample 1 is strictly
    above num_samples - fade_samples = -88, yet its envelope factor is the
    fade-in value 1/220 and not the fade-out value 131/220: the [elif] is not
    reached. *)
Lemma envelope_overlap_counterexample :
  valid_input (b64 1000) (b64 0.003) 44100 (b64 0.5) /\
  num_samples 44100 (b64 0.003) = Ok 132 /\
  fade_samples 44100 = Ok 220 /\
  0 <= 1 < 132 /\ 1 > 132 - 220 /\
  envelope 44100 132 1 = Ok (quotient 1 220) /\
  quotient 1 220 <> quotient (132 - 1) 220.
Proof.
  split; [valid_tone |].
  split; [reflexivity |]. split; [reflexivity |].
  split; [lia |]. split; [lia |]. split; [reflexivity |].
  vm_compute. discriminate.
Qed.

Lemma positive_rate_converts (sample_rate : Z) (rate : f64) :
  0 < sample_rate -> float_of_int sample_rate = Ok rate ->
  finite rate = true /\ sign_of rate = Some false.
Proof.
  intros Hsr Hr. destruct (float_of_int_sign _ _ Hr) as (Hf & Hs & _).
  split; [exact Hf |]. rewrite Hs. f_equal. apply Z.ltb_ge. lia.
Qed.

(** For a sample rate that is not negative the fade length is the floor of
    the binary64 product. *)
Lemma fade_samples_floor (sample_rate : Z) (rate : f64) (fade : Z) :
  0 <= sample_rate -> float_of_int sample_rate = Ok rate ->
  fade_samples sample_rate = Ok fade ->
  fade = Qfloor (f64_value (fmul rate (b64 0.005))) /\ 0 <= fade.
Proof.
  intros Hsr Hr Hfade.
  destruct (fade_samples_defined _ _ Hr) as (fade' & Hfade' & Hint & _).
  assert (fade' = fade) as -> by congruence.
  destruct (float_of_int_sign _ _ Hr) as (Hf & Hs & _).
  replace (sample_rate <? 0) with false in Hs by (symmetry; apply Z.ltb_ge; lia).
  assert (Hfp : finite (fmul rate (b64 0.005)) = true)
    by (apply (int_ok_finite _ _ Hint)).
  assert (Hsp : sign_of (fmul rate (b64 0.005)) = Some false)
    by (apply (fmul_sign rate (b64 0.005) false false); auto).
  pose proof (sign_value _ Hfp Hsp) as Hv.
  rewrite (int_floor _ Hfp Hv) in Hint. injection Hint as <-.
  split; [reflexivity |].
  rewrite <- (Qfloor_Z 0). apply Qfloor_resp_le. exact Hv.
Qed.

(** C2, amended.  With fade_samples = floor(sample_rate x 0.005), the
    product being the binary64 one, for a valid input and a sample index [i]
    of the buffer: if [i < fade_samples] the envelope factor is the float
    [i / fade_samples]; if [i >= fade_samples] and
    [i > num_samples - fade_samples] it is the float
    [(num_samples - i) / fade_samples] (so index
    [num_samples - fade_samples] itself is not faded out); otherwise it is
    1.0. *)
Theorem envelope_first_match (frequency duration : f64) (sample_rate : Z)
    (amplitude : f64) (n i : Z) :
  valid_input frequency duration sample_rate amplitude ->
  num_samples sample_rate duration = Ok n ->
  0 <= i < n ->
  exists rate fade,
    float_of_int sample_rate = Ok rate /\
    fade_samples sample_rate = Ok fade /\
    fade = Qfloor (f64_value (fmul rate (b64 0.005))) /\
    (i < fade ->
       envelope sample_rate n i = Ok (quotient i fade)) /\
    (fade <= i -> i > n - fade ->
       envelope sample_rate n i = Ok (quotient (n - i) fade)) /\
    (fade <= i -> i <= n - fade ->
       envelope sample_rate n i = Ok (b64 1.0)).
Proof.
  intros Hvalid Hn Hi.
  pose proof (valid_sample_rate _ _ _ _ Hvalid) as Hsr.
  destruct (num_samples_inv _ _ _ Hn) as (rate & Hr & _).
  destruct (fade_samples_defined _ _ Hr) as (fade & Hfade & _).
  exists rate, fade. split; [exact Hr |]. split; [exact Hfade |].
  split; [apply (fade_samples_floor sample_rate rate fade); auto; lia |].
  destruct (envelope_defined _ n i _ Hfade Hi) as (e & He & _ & _ & Hcase).
  pose proof (ramp_of_cases fade n i) as Hramp.
  rewrite He. subst e.
  destruct (ramp_of fade n i); (split; [| split]); intros; try lia; reflexivity.
Qed.

Lemma envelope_first_match_witness :
  exists rate fade,
    float_of_int 44100 = Ok rate /\
    fade_samples 44100 = Ok fade /\
    fade = Qfloor (f64_value (fmul rate (b64 0.005))) /\
    (2000 < fade ->
       envelope 44100 2205 2000 = Ok (quotient 2000 fade)) /\
    (fade <= 2000 -> 2000 > 2205 - fade ->
       envelope 44100 2205 2000 = Ok (quotient (2205 - 2000) fade)) /\
    (fade <= 2000 -> 2000 <= 2205 - fade ->
       envelope 44100 2205 2000 = Ok (b64 1.0)).
Proof.
  apply (envelope_first_match (b64 1000) (b64 0.05) 44100 (b64 0.5) 2205 2000).
  - valid_tone.
  - reflexivity.
  - lia.
Defined.

(** C3, as stated, fails: the length is not the rounded product.  A valid
    tone of 33.7 ms at sample rate 1000 has 1000 x 0.0337 = 33.7, which rounds
    to 34 (whether the product is the exact one or the binary64 one), and
    the buffer holds 33 samples. *)
Lemma buffer_length_counterexample :
  valid_input (b64 100) (b64 0.0337) 1000 (b64 0.5) /\
  sample_count (generate_sine_wave sin_approx (b64 100) (b64 0.0337) 1000
                  (b64 0.5)) = Ok 33 /\
  round_half_even (inject_Z 1000 * f64_value (b64 0.0337)) = 34 /\
  round_half_even (f64_value (fmul (b64 1000) (b64 0.0337))) = 34.
Proof.
  split; [valid_tone |].
  split; [vm_compute; reflexivity |].
  split; vm_compute; reflexivity.
Qed.

(** The length is not the floor of the exact product either: the product is
    rounded to binary64 before it is truncated. *)
Example num_samples_rounds_first :
  num_samples 100 (b64 0.29) = Ok 28 /\
  num_samples 44100 (b64 0.35) = Ok 15434 /\
  num_samples 3 (b64 0.3333333333333333) = Ok 1 /\
  Qfloor (inject_Z 3 * f64_value (b64 0.3333333333333333)) = 0.
Proof. repeat split. Qed.

(** C3, amended.  For a valid input, whenever the synthesizer returns a
    buffer, its number of samples is the binary64 product
    sample_rate x duration truncated toward zero, that is its floor,
    [int(sample_rate * duration)], and the buffer has two bytes per sample;
    it does return a buffer when the sample count and the phase stay below
    2^53. *)
Theorem buffer_length_truncates (libm_sin : f64 -> f64)
    (frequency duration : f64) (sample_rate : Z) (amplitude : f64) :
  sine_in_range libm_sin ->
  valid_input frequency duration sample_rate amplitude ->
  (forall buf,
     generate_sine_wave libm_sin frequency duration sample_rate amplitude
       = Ok buf ->
     exists rate,
       float_of_int sample_rate = Ok rate /\
       finite (fmul rate duration) = true /\
       Z.of_nat (length (unpack_samples buf))
         = truncate (f64_value (fmul rate duration)) /\
       truncate (f64_value (fmul rate duration))
         = Qfloor (f64_value (fmul rate duration)) /\
       Z.of_nat (length buf) = 2 * truncate (f64_value (fmul rate duration))) /\
  (forall F D,
     within F frequency = true -> within D duration = true ->
     1 <= D -> sample_rate * D < 2 ^ 53 -> 7 * F * D < 2 ^ 53 ->
     exists buf,
       generate_sine_wave libm_sin frequency duration sample_rate amplitude
         = Ok buf).
Proof.
  intros Hsin Hvalid.
  split; [| intros F D; apply (valid_tone_defined libm_sin); assumption].
  intros buf Hgen.
  pose proof (valid_sample_rate _ _ _ _ Hvalid) as Hsr.
  destruct (generate_sine_wave_inv _ _ _ _ _ _ Hgen)
    as (n & vs & Hn & Hvs & _ & Hbuf & Hun).
  destruct (num_samples_inv _ _ _ Hn) as (rate & Hr & Hf & Hnv).
  exists rate. split; [exact Hr |]. split; [exact Hf |].
  destruct (positive_rate_converts _ _ Hsr Hr) as [Hfr Hsgn].
  destruct Hvalid as (_ & _ & Hfd & Hpd & _).
  destruct (positive_value _ Hpd) as (m & e & Hd).
  assert (Hsp : sign_of (fmul rate duration) = Some false).
  { apply (fmul_sign rate duration false false); auto. subst duration. reflexivity. }
  pose proof (sign_value _ Hf Hsp) as Hv.
  pose proof (truncate_nonneg_floor _ Hv) as Hfloor.
  assert (Hn0 : 0 <= n).
  { rewrite Hnv, Hfloor. rewrite <- (Qfloor_Z 0). apply Qfloor_resp_le. exact Hv. }
  rewrite Hun, <- Hnv. rewrite (generated_length _ _ _ _ _ _ Hvs).
  split; [lia |]. split; [rewrite Hnv; exact Hfloor |].
  rewrite Hbuf, concat_le_bytes_length, (generated_length _ _ _ _ _ _ Hvs). lia.
Qed.

Lemma buffer_length_truncates_witness :
  (forall buf,
     generate_sine_wave sin_approx (b64 100) (b64 0.0337) 1000 (b64 0.5)
       = Ok buf ->
     exists rate,
       float_of_int 1000 = Ok rate /\
       finite (fmul rate (b64 0.0337)) = true /\
       Z.of_nat (length (unpack_samples buf))
         = truncate (f64_value (fmul rate (b64 0.0337))) /\
       truncate (f64_value (fmul rate (b64 0.0337)))
         = Qfloor (f64_value (fmul rate (b64 0.0337))) /\
       Z.of_nat (length buf)
         = 2 * truncate (f64_value (fmul rate (b64 0.0337)))) /\
  (forall F D,
     within F (b64 100) = true -> within D (b64 0.0337) = true ->
     1 <= D -> 1000 * D < 2 ^ 53 -> 7 * F * D < 2 ^ 53 ->
     exists buf,
       generate_sine_wave sin_approx (b64 100) (b64 0.0337) 1000 (b64 0.5)
         = Ok buf).
Proof.
  apply (buffer_length_truncates sin_approx (b64 100) (b64 0.0337) 1000
           (b64 0.5)).
  - exact sin_approx_range.
  - valid_tone.
Defined.

(** C4, as stated, fails for tones between one and two fade lengths.  A
    valid tone of 7 ms at 44100 Hz has 308 samples, fewer than
    2 x fade_samples = 440; sample 250 is past the fade-in (250 >= 220) and
    takes the fade-out branch, with factor (308 - 250) / 220. *)
Lemma short_tone_counterexample :
  valid_input (b64 1000) (b64 0.007) 44100 (b64 0.5) /\
  num_samples 44100 (b64 0.007) = Ok 308 /\
  fade_samples 44100 = Ok 220 /\
  308 < 2 * 220 /\ 0 <= 250 < 308 /\
  ramp_of 220 308 250 = fade_out /\
  envelope 44100 308 250 = Ok (quotient (308 - 250) 220).
Proof.
  split; [valid_tone |]. repeat split; try reflexivity; lia.
Qed.

(** C4, amended.  For a valid input with num_samples <= fade_samples (a tone
    of at most about 5 ms at the given sample rate), every sample takes the
    fade-in branch, with factor [i / fade_samples], and none takes the
    fade-out branch. *)
Theorem short_tone_fade_in_only (frequency duration : f64) (sample_rate : Z)
    (amplitude : f64) (n fade : Z) :
  valid_input frequency duration sample_rate amplitude ->
  num_samples sample_rate duration = Ok n ->
  fade_samples sample_rate = Ok fade ->
  n <= fade ->
  forall i, 0 <= i < n ->
    ramp_of fade n i = fade_in /\
    ramp_of fade n i <> fade_out /\
    envelope sample_rate n i = Ok (quotient i fade).
Proof.
  intros _ _ Hfade Hshort i Hi.
  assert (E : ramp_of fade n i = fade_in).
  { unfold ramp_of. destruct (Z.ltb_spec i fade); [reflexivity | lia]. }
  split; [exact E | split; [congruence |]].
  destruct (envelope_defined _ n i _ Hfade Hi) as (e & -> & _ & _ & ->).
  rewrite E. reflexivity.
Qed.

Lemma short_tone_fade_in_only_witness :
  ramp_of 220 132 100 = fade_in /\
  ramp_of 220 132 100 <> fade_out /\
  envelope 44100 132 100 = Ok (quotient 100 220).
Proof.
  apply (short_tone_fade_in_only (b64 1000) (b64 0.003) 44100 (b64 0.5) 132 220).
  - valid_tone.
  - reflexivity.
  - reflexivity.
  - lia.
  - lia.
Defined.

(** Between one and two fade lengths the fade-out does apply: every sample
    from index fade_samples on takes it, and no sample is left at 1.0. *)
Lemma medium_tone_fades_out (fade n i : Z) :
  fade < n < 2 * fade -> fade <= i < n ->
  ramp_of fade n i = fade_out.
Proof.
  intros Hn Hi. unfold ramp_of.
  destruct (Z.ltb_spec i fade); [lia |].
  destruct (Z.gtb_spec i (n - fade)); [reflexivity | lia].
Qed.

(** C5.  For a valid input every sample value the loop computes lies in
    [-32768, 32767] and packing it raises no error, so the synthesizer never
    raises the packing error; when it returns a buffer, the buffer read back
    as signed 16-bit samples is the list of the values computed: nothing
    wraps.  It does return a buffer when the sample count and the phase stay
    below 2^53.  The C library's sine is assumed to take its values in
    [-1, 1]. *)
Theorem samples_fit_16_bits (libm_sin : f64 -> f64)
    (frequency duration : f64) (sample_rate : Z) (amplitude : f64) :
  sine_in_range libm_sin ->
  valid_input frequency duration sample_rate amplitude ->
  (forall n i v,
     0 <= i < n ->
     pcm_value libm_sin frequency sample_rate amplitude n i = Ok v ->
     -32768 <= v <= 32767 /\
     struct_pack_h v = Ok (le_bytes 2 v)) /\
  generate_sine_wave libm_sin frequency duration sample_rate amplitude
    <> Raise StructError /\
  (forall buf,
     generate_sine_wave libm_sin frequency duration sample_rate amplitude
       = Ok buf ->
     exists n,
       num_samples sample_rate duration = Ok n /\
       for_each (pcm_value libm_sin frequency sample_rate amplitude n) (range n)
         = Ok (unpack_samples buf) /\
       Forall (fun v => -32768 <= v <= 32767) (unpack_samples buf)) /\
  (forall F D,
     within F frequency = true -> within D duration = true ->
     1 <= D -> sample_rate * D < 2 ^ 53 -> 7 * F * D < 2 ^ 53 ->
     exists buf,
       generate_sine_wave libm_sin frequency duration sample_rate amplitude
         = Ok buf).
Proof.
  intros Hsin Hvalid.
  pose proof (valid_amplitude _ _ _ _ Hvalid) as Ha.
  assert (Hrange : forall n i v,
     0 <= i < n ->
     pcm_value libm_sin frequency sample_rate amplitude n i = Ok v ->
     -32768 <= v <= 32767).
  { intros n i v Hi Hv.
    pose proof (pcm_value_range libm_sin Hsin _ _ _ _ _ _ Ha Hi Hv). lia. }
  split; [| split; [| split]].
  - intros n i v Hi Hv. pose proof (Hrange n i v Hi Hv) as Hb.
    split; [exact Hb | apply struct_pack_h_ok; exact Hb].
  - intros Hgen. unfold generate_sine_wave in Hgen.
    destruct (num_samples sample_rate duration) as [n | e] eqn:Hn;
      cbn [bind] in Hgen.
    + destruct (for_each _ (range n)) as [bs | e] eqn:Hl; cbn [bind] in Hgen;
        [discriminate |].
      injection Hgen as ->. apply for_each_raise in Hl.
      destruct Hl as (i & Hi & Hbody). apply range_In in Hi.
      destruct (pcm_value libm_sin frequency sample_rate amplitude n i)
        as [v | e2] eqn:Hv; cbn [bind] in Hbody.
      * apply struct_pack_h_raise in Hbody. destruct Hbody as [_ Hout].
        apply Hout. apply (Hrange n i v Hi Hv).
      * injection Hbody as ->.
        destruct (pcm_value_raise _ _ _ _ _ _ _ Hi Hv) as [H | [H | [H _]]];
          discriminate.
    + injection Hgen as ->.
      destruct (num_samples_raise _ _ _ Hn); discriminate.
  - intros buf Hgen.
    destruct (generate_sine_wave_inv _ _ _ _ _ _ Hgen)
      as (n & vs & Hn & Hvs & Hall & _ & ->).
    exists n. auto.
  - intros F D. apply (valid_tone_defined libm_sin); assumption.
Qed.

Lemma samples_fit_16_bits_witness :
  (forall n i v,
     0 <= i < n ->
     pcm_value sin_approx (b64 1000) 44100 (b64 0.5) n i = Ok v ->
     -32768 <= v <= 32767 /\
     struct_pack_h v = Ok (le_bytes 2 v)) /\
  generate_sine_wave sin_approx (b64 1000) (b64 0.05) 44100 (b64 0.5)
    <> Raise StructError /\
  (forall buf,
     generate_sine_wave sin_approx (b64 1000) (b64 0.05) 44100 (b64 0.5)
       = Ok buf ->
     exists n,
       num_samples 44100 (b64 0.05) = Ok n /\
       for_each (pcm_value sin_approx (b64 1000) 44100 (b64 0.5) n) (range n)
         = Ok (unpack_samples buf) /\
       Forall (fun v => -32768 <= v <= 32767) (unpack_samples buf)) /\
  (forall F D,
     within F (b64 1000) = true -> within D (b64 0.05) = true ->
     1 <= D -> 44100 * D < 2 ^ 53 -> 7 * F * D < 2 ^ 53 ->
     exists buf,
       generate_sine_wave sin_approx (b64 1000) (b64 0.05) 44100 (b64 0.5)
         = Ok buf).
Proof.
  apply (samples_fit_16_bits sin_approx (b64 1000) (b64 0.05) 44100 (b64 0.5)).
  - exact sin_approx_range.
  - valid_tone.
Defined.

(** Outside the preconditions the packing error is reachable: an amplitude
    of 2 overflows the 16-bit range. *)
Example amplitude_2_raises :
  generate_sine_wave sin_approx (b64 100) (b64 0.005) 1000 (b64 2)
    = Raise StructError.
Proof. vm_compute. reflexivity. Qed.

(** ** No validation *)

Lemma product_of_nonpositive (rate duration : f64) :
  finite rate = true -> sign_of rate = Some false ->
  finite duration = true -> (f64_value duration <= 0)%Q ->
  fmul rate duration <> S754_nan /\
  forall n, int (fmul rate duration) = Ok n -> n <= 0.
Proof.
  intros Hfr Hsr Hfd Hd.
  destruct (nonpositive_value _ Hfd Hd) as [(s & ->) | (m & e & ->)].
  - destruct rate as [s' | s' | | s' m' e']; try discriminate; simpl;
      split; try discriminate; intros n [= <-]; reflexivity.
  - pose proof (fmul_sign rate (S754_finite true m e) false true Hfr eq_refl Hsr
                  eq_refl) as Hs.
    split; [intros H; rewrite H in Hs; discriminate |].
    intros n Hn. apply (int_sign _ _ _ Hs Hn).
Qed.

Lemma generate_sine_wave_no_samples (libm_sin : f64 -> f64)
    (frequency duration : f64) (sample_rate : Z) (amplitude : f64) (n : Z) :
  num_samples sample_rate duration = Ok n -> n <= 0 ->
  generate_sine_wave libm_sin frequency duration sample_rate amplitude = Ok [].
Proof.
  intros Hn H0. unfold generate_sine_wave. rewrite Hn. cbn [bind].
  rewrite (range_nonpos n H0). reflexivity.
Qed.

(** A duration that is not positive gives no sample. *)
Lemma nonpositive_duration_count (sample_rate : Z) (duration : f64) :
  0 <= sample_rate -> finite duration = true -> (f64_value duration <= 0)%Q ->
  (forall n, num_samples sample_rate duration = Ok n -> n <= 0) /\
  (forall e, num_samples sample_rate duration = Raise e -> e = OverflowError).
Proof.
  intros Hsr Hfd Hd. unfold num_samples.
  destruct (float_of_int sample_rate) as [rate | e'] eqn:Hr; cbn [bind].
  - destruct (float_of_int_sign _ _ Hr) as (Hf & Hs & _).
    replace (sample_rate <? 0) with false in Hs by (symmetry; apply Z.ltb_ge; lia).
    destruct (product_of_nonpositive rate duration Hf Hs Hfd Hd) as [Hnan Hle].
    split; [exact Hle |].
    intros e He. destruct (fmul rate duration); simpl in He; try discriminate;
      [injection He as <-; reflexivity | congruence].
  - split; [discriminate |]. intros e [= <-]. apply (float_of_int_raise _ _ Hr).
Qed.

Lemma nonpositive_duration_defined (libm_sin : f64 -> f64)
    (frequency duration : f64) (sample_rate : Z) (amplitude : f64) (D : Z) :
  finite duration = true -> (f64_value duration <= 0)%Q ->
  within D duration = true ->
  0 <= sample_rate < 2 ^ 53 -> sample_rate * D < 2 ^ 53 ->
  generate_sine_wave libm_sin frequency duration sample_rate amplitude = Ok [].
Proof.
  intros Hfd Hd HD Hsr HsD.
  assert (HD0 : 0 <= D).
  { destruct (Z_le_gt_dec 0 D) as [H | H]; [exact H |]. exfalso.
    destruct duration; simpl in HD, Hfd; try discriminate.
    - apply Z.leb_le in HD. lia.
    - apply (mag_le_scale _ _ _ (Z.max 0 (- e))) in HD; [| lia | lia].
      pose proof (pow2_pos (Z.max 0 (- e)) ltac:(lia)).
      pose proof (pow2_pos (e + Z.max 0 (- e)) ltac:(lia)). nia. }
  destruct (num_samples_within sample_rate duration D HD HD0)
    as (n & Hn & _); try lia.
  destruct (nonpositive_duration_count sample_rate duration) as [Hle _];
    try assumption; try lia.
  apply (generate_sine_wave_no_samples _ _ _ _ _ n Hn (Hle n Hn)).
Qed.

(** C8, as stated, fails: nothing is validated.  With a negative duration
    the synthesizer returns the empty buffer instead of failing. *)
Lemma negative_duration_counterexample :
  ~ valid_input (b64 1000) (b64 (-0.05)) 44100 (b64 0.5) /\
  generate_sine_wave sin_approx (b64 1000) (b64 (-0.05)) 44100 (b64 0.5) = Ok [].
Proof.
  split; [| reflexivity].
  intros (_ & _ & _ & H & _). vm_compute in H. discriminate.
Qed.

(** C8, amended.  The synthesizer checks none of its parameters and has no
    InvalidParameter error.  Whatever the input, it returns a buffer or
    raises an exception of its arithmetic: [ValueError] or [OverflowError]
    from a float conversion, or the packing error.  An input that violates
    the preconditions is computed on like any other: a duration that is not
    positive gives the empty buffer (sample rate not negative, sample count
    below 2^53), and a frequency of any sign and an amplitude anywhere in
    [-1, 1] give a buffer (sample count and phase below 2^53; the C
    library's sine assumed within [-1, 1]). *)
Theorem no_parameter_validation (libm_sin : f64 -> f64)
    (frequency duration : f64) (sample_rate : Z) (amplitude : f64) :
  ((exists buf,
      generate_sine_wave libm_sin frequency duration sample_rate amplitude
        = Ok buf) \/
   generate_sine_wave libm_sin frequency duration sample_rate amplitude
     = Raise ValueError \/
   generate_sine_wave libm_sin frequency duration sample_rate amplitude
     = Raise OverflowError \/
   generate_sine_wave libm_sin frequency duration sample_rate amplitude
     = Raise StructError) /\
  (forall D,
     finite duration = true -> (f64_value duration <= 0)%Q ->
     within D duration = true ->
     0 <= sample_rate < 2 ^ 53 -> sample_rate * D < 2 ^ 53 ->
     generate_sine_wave libm_sin frequency duration sample_rate amplitude
       = Ok []) /\
  (forall F D,
     sine_in_range libm_sin ->
     within 1 amplitude = true ->
     within F frequency = true -> within D duration = true ->
     0 <= F -> 1 <= D -> 0 < sample_rate ->
     sample_rate * D < 2 ^ 53 -> 7 * F * D < 2 ^ 53 ->
     exists buf,
       generate_sine_wave libm_sin frequency duration sample_rate amplitude
         = Ok buf).
Proof.
  split; [| split].
  - destruct (generate_sine_wave libm_sin frequency duration sample_rate
                amplitude) as [buf | e] eqn:Hgen; [left; eauto |].
    right. destruct (generate_sine_wave_raise _ _ _ _ _ _ Hgen) as [-> | [-> | ->]];
      auto.
  - intros D Hfd Hd HD Hsr HsD.
    apply (nonpositive_duration_defined _ _ _ _ _ D); assumption.
  - intros F D Hsin Ha HF HD HF0 HD1 Hsr HsD HFD.
    apply (generate_sine_wave_defined libm_sin _ _ _ _ F D); assumption.
Qed.

Lemma no_parameter_validation_witness :
  generate_sine_wave sin_approx (b64 (-440)) (b64 (-0.05)) 44100 (b64 (-0.5))
    = Ok [].
Proof.
  apply (proj1 (proj2 (no_parameter_validation sin_approx (b64 (-440))
                         (b64 (-0.05)) 44100 (b64 (-0.5)))) 1).
  - reflexivity.
  - vm_compute. discriminate.
  - reflexivity.
  - lia.
  - lia.
Defined.

(** A frequency and an amplitude below zero: a buffer all the same. *)
Example negative_frequency_and_amplitude :
  sample_count (generate_sine_wave sin_approx (b64 (-100)) (b64 0.01) 1000
                  (b64 (-0.5))) = Ok 10.
Proof. vm_compute. reflexivity. Qed.

(** The two exceptions of the float conversions are reachable, on inputs
    that satisfy the preconditions: a frequency of 1e308 overflows the
    phase, a duration of 1e308 overflows the sample count. *)
Example huge_frequency_raises :
  valid_input (b64 1e308) (b64 0.001) 1000 (b64 0.5) /\
  generate_sine_wave sin_approx (b64 1e308) (b64 0.001) 1000 (b64 0.5)
    = Raise ValueError.
Proof. split; [valid_tone | vm_compute; reflexivity]. Qed.

Example huge_duration_raises :
  valid_input (b64 1000) (b64 1e308) 44100 (b64 0.5) /\
  generate_sine_wave sin_approx (b64 1000) (b64 1e308) 44100 (b64 0.5)
    = Raise OverflowError.
Proof. split; [valid_tone | vm_compute; reflexivity]. Qed.

(** C10, as stated, fails for a negative sample rate: with duration -0.05
    and sample rate -1000 the product is 50.0 and the loop runs 50 times. *)
Lemma negative_rate_counterexample :
  (f64_value (b64 (-0.05)) <= 0)%Q /\
  num_samples (-1000) (b64 (-0.05)) = Ok 50 /\
  sample_count (generate_sine_wave sin_approx (b64 100) (b64 (-0.05)) (-1000)
                  (b64 0.5)) = Ok 50.
Proof.
  split; [vm_compute; discriminate |].
  split; vm_compute; reflexivity.
Qed.

(** It fails as well where line 24 overflows: a duration of -1e308, or a
    sample rate of 10^400, raises [OverflowError]. *)
Example overflowing_count_raises :
  generate_sine_wave sin_approx (b64 1000) (b64 (-1e308)) 44100 (b64 0.5)
    = Raise OverflowError /\
  generate_sine_wave sin_approx (b64 1000) (b64 (-0.05)) (10 ^ 400) (b64 0.5)
    = Raise OverflowError.
Proof. split; vm_compute; reflexivity. Qed.

(** C10, amended.  For every finite duration <= 0 and every sample rate >= 0
    (and any frequency and amplitude): whenever line 24 yields
    [num_samples] it is an integer <= 0, the loop body never executes (no
    division, no packing) and [generate_sine_wave] returns the empty byte
    string; the only exception possible is the [OverflowError] of line 24
    (a sample rate too large for a float, or a product that overflows), and
    there is none when sample_rate x |duration| stays below 2^53. *)
Theorem nonpositive_duration_empty (libm_sin : f64 -> f64)
    (frequency duration : f64) (sample_rate : Z) (amplitude : f64) :
  finite duration = true -> (f64_value duration <= 0)%Q -> 0 <= sample_rate ->
  (forall n,
     num_samples sample_rate duration = Ok n ->
     n <= 0 /\ range n = [] /\
     generate_sine_wave libm_sin frequency duration sample_rate amplitude
       = Ok []) /\
  (forall e,
     generate_sine_wave libm_sin frequency duration sample_rate amplitude
       = Raise e ->
     e = OverflowError /\
     num_samples sample_rate duration = Raise OverflowError) /\
  (forall D,
     within D duration = true ->
     sample_rate < 2 ^ 53 -> sample_rate * D < 2 ^ 53 ->
     generate_sine_wave libm_sin frequency duration sample_rate amplitude
       = Ok []).
Proof.
  intros Hfd Hd Hsr.
  destruct (nonpositive_duration_count sample_rate duration Hsr Hfd Hd)
    as [Hle Hraise].
  split; [| split].
  - intros n Hn. pose proof (Hle n Hn) as H0.
    split; [exact H0 |]. split; [apply range_nonpos; exact H0 |].
    apply (generate_sine_wave_no_samples _ _ _ _ _ n Hn H0).
  - intros e Hgen.
    destruct (num_samples sample_rate duration) as [n | e'] eqn:Hn.
    + rewrite (generate_sine_wave_no_samples _ _ _ _ _ n Hn (Hle n eq_refl)) in Hgen.
      discriminate.
    + pose proof (Hraise e' eq_refl) as ->.
      unfold generate_sine_wave in Hgen. rewrite Hn in Hgen. cbn [bind] in Hgen.
      injection Hgen as <-. split; reflexivity.
  - intros D HD Hsr' HsD.
    apply (nonpositive_duration_defined _ _ _ _ _ D); auto.
Qed.

Lemma nonpositive_duration_empty_witness :
  (forall n,
     num_samples 44100 (b64 (-0.05)) = Ok n ->
     n <= 0 /\ range n = [] /\
     generate_sine_wave sin_approx (b64 1000) (b64 (-0.05)) 44100 (b64 0.5)
       = Ok []) /\
  (forall e,
     generate_sine_wave sin_approx (b64 1000) (b64 (-0.05)) 44100 (b64 0.5)
       = Raise e ->
     e = OverflowError /\
     num_samples 44100 (b64 (-0.05)) = Raise OverflowError) /\
  (forall D,
     within D (b64 (-0.05)) = true ->
     44100 < 2 ^ 53 -> 44100 * D < 2 ^ 53 ->
     generate_sine_wave sin_approx (b64 1000) (b64 (-0.05)) 44100 (b64 0.5)
       = Ok []).
Proof.
  apply (nonpositive_duration_empty sin_approx (b64 1000) (b64 (-0.05)) 44100
           (b64 0.5)).
  - reflexivity.
  - vm_compute. discriminate.
  - lia.
Defined.

(** ** The container *)

Lemma pack_uint_fits (n : nat) (v : Z) :
  0 <= v < 256 ^ Z.of_nat n -> pack_uint n v = Ok (le_bytes n v).
Proof.
  intros H. unfold pack_uint.
  destruct (Z.leb_spec 0 v); [| lia].
  destruct (Z.ltb_spec v (256 ^ Z.of_nat n)); [reflexivity | lia].
Qed.

Lemma write_container_fits nch sw rate data :
  header_fits nch sw rate data ->
  write_container nch sw rate data =
    Ok (header_of nch sw rate (Z.of_nat (length data)) ++ data).
Proof.
  intros (Hc & Hw & Hr & Hbr & Hba & Hlen). unfold write_container.
  destruct (Z.ltb_spec nch 1); [lia |].
  destruct (Z.ltb_spec sw 1); [lia |].
  destruct (Z.gtb_spec sw 4); [lia |].
  destruct (Z.leb_spec rate 0); [lia |]. cbv zeta. simpl orb. cbv iota.
  change (256 ^ Z.of_nat 4) with 4294967296 in *.
  rewrite !pack_uint_fits;
    try (change (256 ^ Z.of_nat 4) with 4294967296);
    try (change (256 ^ Z.of_nat 2) with 65536);
    try (unfold WAVE_FORMAT_PCM; lia); try nia.
  unfold header_of. cbn [bind]. now rewrite <- !app_assoc.
Qed.

Lemma write_container_ok nch sw rate data file :
  write_container nch sw rate data = Ok file ->
  header_fits nch sw rate data.
Proof.
  unfold write_container, header_fits.
  destruct (Z.ltb_spec nch 1); [discriminate |].
  destruct (Z.ltb_spec sw 1); [discriminate |].
  destruct (Z.gtb_spec sw 4); [discriminate |].
  destruct (Z.leb_spec rate 0); [discriminate |]. cbv zeta. simpl orb. cbv iota.
  repeat match goal with
  | |- context [pack_uint ?n ?v] =>
      let H := fresh "P" in
      destruct (pack_uint n v) eqn:H; cbn [bind]; [| discriminate];
      apply pack_uint_ok in H; destruct H as [-> H]
  end.
  intros _.
  change (256 ^ Z.of_nat 4) with 4294967296 in *.
  change (256 ^ Z.of_nat 2) with 65536 in *. lia.
Qed.

Lemma le_value_2 (v : Z) :
  0 <= v < 65536 ->
  le_value [byte_of_Z v; byte_of_Z (v / 256)] = v.
Proof. intros H. now apply (le_value_le_bytes_small 2). Qed.

Lemma le_value_4 (v : Z) :
  0 <= v < 4294967296 ->
  le_value [byte_of_Z v; byte_of_Z (v / 256); byte_of_Z (v / 256 / 256);
            byte_of_Z (v / 256 / 256 / 256)] = v.
Proof. intros H. now apply (le_value_le_bytes_small 4). Qed.

Lemma declared_lengths nch sw rate data :
  header_fits nch sw rate data ->
  let file := header_of nch sw rate (Z.of_nat (length data)) ++ data in
  declared_data_length file = Z.of_nat (length data) /\
  declared_riff_size file = 36 + Z.of_nat (length data) /\
  Z.of_nat (length file) = 44 + Z.of_nat (length data).
Proof.
  intros (Hc & Hw & Hr & Hbr & Hba & Hlen) file. subst file.
  unfold declared_data_length, declared_riff_size, slice, header_of.
  unfold tag_RIFF, tag_WAVE, tag_fmt, tag_data.
  cbn [le_bytes app firstn skipn length].
  rewrite !le_value_4 by lia. repeat split; lia.
Qed.

Lemma read_written nch sw rate data :
  header_fits nch sw rate data ->
  read_container (header_of nch sw rate (Z.of_nat (length data)) ++ data) =
    Some {| c_channels := nch; c_sample_width := sw; c_sample_rate := rate;
            c_frames := data |}.
Proof.
  intros Hfits.
  destruct (declared_lengths nch sw rate data Hfits) as (Hd & _ & Hl).
  destruct Hfits as (Hc & Hw & Hr & Hbr & Hba & Hlen).
  unfold read_container. rewrite Hd, Hl.
  destruct (Z.leb_spec (44 + Z.of_nat (length data)) (44 + Z.of_nat (length data)));
    [| lia].
  unfold slice, header_of, tag_RIFF, tag_WAVE, tag_fmt, tag_data.
  cbn [le_bytes app firstn skipn].
  rewrite !le_value_4, !le_value_2 by (unfold WAVE_FORMAT_PCM; lia).
  cbn [bytes_eqb Byte.eqb andb]. 
  unfold WAVE_FORMAT_PCM.
  rewrite Z.eqb_refl. cbn [andb Z.eqb Pos.eqb].
  rewrite Z.div_mul by lia.
  rewrite Nat2Z.id, firstn_all. reflexivity.
Qed.

Lemma create_wav_file_ok libm_sin fs filename frequency duration sample_rate fs' :
  create_wav_file libm_sin fs filename frequency duration sample_rate = Ok fs' ->
  exists buf file,
    generate_sine_wave libm_sin frequency duration sample_rate default_amplitude
      = Ok buf /\
    writable fs filename = true /\
    write_container 1 2 sample_rate buf = Ok file /\
    fs' = write_file fs filename file.
Proof.
  unfold create_wav_file.
  destruct (generate_sine_wave _ _ _ _ _) as [buf | e]; cbn [bind];
    [| discriminate].
  destruct (writable fs filename); [| discriminate].
  destruct (write_container 1 2 sample_rate buf) as [file | e] eqn:Hw;
    cbn [bind]; [| discriminate].
  intros [= <-]. exists buf, file. repeat split. exact Hw.
Qed.

Lemma files_write_file fs filename file :
  files (write_file fs filename file) !! filename = Some file.
Proof. unfold write_file. cbn [files]. apply lookup_insert_eq. Qed.

(** A generated buffer has two bytes per sample, and as many samples as
    line 24 computes. *)
Lemma generated_buffer_shape libm_sin frequency duration sample_rate amplitude buf :
  generate_sine_wave libm_sin frequency duration sample_rate amplitude = Ok buf ->
  Z.of_nat (length buf) = Z.of_nat (length (unpack_samples buf)) * 2 /\
  exists n, num_samples sample_rate duration = Ok n /\
            Z.of_nat (length (unpack_samples buf)) = Z.max 0 n.
Proof.
  intros Hgen.
  destruct (generate_sine_wave_inv _ _ _ _ _ _ Hgen)
    as (n & vs & Hn & Hvs & _ & Hbuf & Hun).
  rewrite Hun, Hbuf, concat_le_bytes_length.
  rewrite (generated_length _ _ _ _ _ _ Hvs).
  split; [lia |]. exists n. split; [exact Hn | lia].
Qed.

(** The first tone of [main], with any sine within [-1, 1]. *)
Lemma click_tone_generated libm_sin :
  sine_in_range libm_sin ->
  exists buf,
    generate_sine_wave libm_sin (b64 1000) (b64 0.05) 44100 (b64 0.5) = Ok buf /\
    length (unpack_samples buf) = 2205%nat /\
    length buf = 4410%nat.
Proof.
  intros Hsin.
  destruct (generate_sine_wave_defined libm_sin (b64 1000) (b64 0.05) 44100
              (b64 0.5) 1000 1 Hsin) as (buf & Hgen);
    try reflexivity; try lia.
  exists buf. split; [exact Hgen |].
  destruct (generated_buffer_shape _ _ _ _ _ _ Hgen) as [Hlen (n & Hn & Hcount)].
  change (num_samples 44100 (b64 0.05)) with (@Ok Z 2205) in Hn.
  injection Hn as <-. lia.
Qed.

(** C6.  Whenever [create_wav_file] writes a file, the data length its
    header declares is the number of samples of the generated buffer x 2
    bytes x 1 channel (and, for any writer parameters, the byte length of
    the buffer given).  In particular the tone (1000 Hz, 0.05 s, 44100 Hz,
    0.5) has exactly 2205 samples and its container declares 4410 bytes.
    The C library's sine is assumed to take its values in [-1, 1]. *)
Theorem declared_data_length_matches (libm_sin : f64 -> f64) :
  sine_in_range libm_sin ->
  (forall nch sw rate data file n,
     write_container nch sw rate data = Ok file ->
     Z.of_nat (length data) = n * sw * nch ->
     declared_data_length file = n * sw * nch) /\
  (forall fs filename frequency duration sample_rate fs',
     create_wav_file libm_sin fs filename frequency duration sample_rate = Ok fs' ->
     exists buf file,
       generate_sine_wave libm_sin frequency duration sample_rate
         default_amplitude = Ok buf /\
       files fs' !! filename = Some file /\
       declared_data_length file = Z.of_nat (length (unpack_samples buf)) * 2 * 1) /\
  (exists buf,
     generate_sine_wave libm_sin (b64 1000) (b64 0.05) 44100 (b64 0.5) = Ok buf /\
     length (unpack_samples buf) = 2205%nat /\
     forall fs filename,
       writable fs filename = true ->
       exists fs' file,
         create_wav_file libm_sin fs filename (b64 1000) (b64 0.05) 44100
           = Ok fs' /\
         files fs' !! filename = Some file /\
         declared_data_length file = 4410).
Proof.
  intros Hsin.
  assert (Hdecl : forall nch sw rate data file,
     write_container nch sw rate data = Ok file ->
     declared_data_length file = Z.of_nat (length data)).
  { intros nch sw rate data file Hw.
    pose proof (write_container_ok _ _ _ _ _ Hw) as Hfits.
    rewrite (write_container_fits _ _ _ _ Hfits) in Hw. injection Hw as <-.
    now apply declared_lengths. }
  split; [| split].
  - intros nch sw rate data file n Hw <-. now apply (Hdecl nch sw rate).
  - intros fs filename frequency duration sample_rate fs' Hrun.
    apply create_wav_file_ok in Hrun.
    destruct Hrun as (buf & file & Hgen & _ & Hw & ->).
    exists buf, file. split; [exact Hgen |].
    split; [apply files_write_file |].
    rewrite (Hdecl _ _ _ _ _ Hw).
    destruct (generated_buffer_shape _ _ _ _ _ _ Hgen) as [-> _]. lia.
  - destruct (click_tone_generated libm_sin Hsin) as (buf & Hgen & Hcount & Hlen).
    exists buf. split; [exact Hgen |]. split; [exact Hcount |].
    intros fs filename Hwr.
    assert (Hfits : header_fits 1 2 44100 buf).
    { unfold header_fits. rewrite Hlen. lia. }
    eexists. eexists.
    unfold create_wav_file. change default_amplitude with (b64 0.5).
    rewrite Hgen. cbn [bind]. rewrite Hwr.
    rewrite (write_container_fits _ _ _ _ Hfits). cbn [bind].
    split; [reflexivity |]. split; [apply files_write_file |].
    destruct (declared_lengths _ _ _ _ Hfits) as (-> & _).
    rewrite Hlen. reflexivity.
Qed.

Lemma declared_data_length_matches_witness :
  (forall nch sw rate data file n,
     write_container nch sw rate data = Ok file ->
     Z.of_nat (length data) = n * sw * nch ->
     declared_data_length file = n * sw * nch) /\
  (forall fs filename frequency duration sample_rate fs',
     create_wav_file sin_approx fs filename frequency duration sample_rate = Ok fs' ->
     exists buf file,
       generate_sine_wave sin_approx frequency duration sample_rate
         default_amplitude = Ok buf /\
       files fs' !! filename = Some file /\
       declared_data_length file = Z.of_nat (length (unpack_samples buf)) * 2 * 1) /\
  (exists buf,
     generate_sine_wave sin_approx (b64 1000) (b64 0.05) 44100 (b64 0.5) = Ok buf /\
     length (unpack_samples buf) = 2205%nat /\
     forall fs filename,
       writable fs filename = true ->
       exists fs' file,
         create_wav_file sin_approx fs filename (b64 1000) (b64 0.05) 44100
           = Ok fs' /\
         files fs' !! filename = Some file /\
         declared_data_length file = 4410).
Proof.
  apply (declared_data_length_matches sin_approx). exact sin_approx_range.
Defined.

(** C7.  Round trip: a container written for a channel count, a sample
    width, a sample rate and a buffer is read back by the reader as that
    channel count, that sample width, that sample rate and those very
    sample bytes. *)
Theorem container_round_trip (channel_count sample_width_bytes sample_rate_hz : Z)
    (data file : bytes) :
  write_container channel_count sample_width_bytes sample_rate_hz data = Ok file ->
  read_container file =
    Some {| c_channels := channel_count;
            c_sample_width := sample_width_bytes;
            c_sample_rate := sample_rate_hz;
            c_frames := data |}.
Proof.
  intros Hw. pose proof (write_container_ok _ _ _ _ _ Hw) as Hfits.
  rewrite (write_container_fits _ _ _ _ Hfits) in Hw. injection Hw as <-.
  now apply read_written.
Qed.

Lemma container_round_trip_witness :
  read_container (header_of 2 2 48000 8 ++ [x01; x02; x03; x04; xfd; xff; x10; x80]) =
    Some {| c_channels := 2;
            c_sample_width := 2;
            c_sample_rate := 48000;
            c_frames := [x01; x02; x03; x04; xfd; xff; x10; x80] |}.
Proof.
  apply (container_round_trip 2 2 48000). reflexivity.
Defined.

(** The writer succeeds exactly when every header field fits its width. *)
Lemma write_container_succeeds nch sw rate data :
  header_fits nch sw rate data <->
  exists file, write_container nch sw rate data = Ok file.
Proof.
  split.
  - intros H. eexists. now apply write_container_fits.
  - intros (file & H). eapply write_container_ok. exact H.
Qed.

(** C9.  Determinism.  Two runs of [create_wav_file] with the same tone and
    file name, from any two states of the file system, generate the same
    sample buffer and leave the same container bytes in the file; a second
    run after the first changes nothing. *)
Theorem runs_are_deterministic (libm_sin : f64 -> f64) (filename : string)
    (frequency duration : f64) (sample_rate : Z)
    (fs1 fs2 fs1' fs2' : file_system) :
  create_wav_file libm_sin fs1 filename frequency duration sample_rate = Ok fs1' ->
  create_wav_file libm_sin fs2 filename frequency duration sample_rate = Ok fs2' ->
  exists buf file,
    generate_sine_wave libm_sin frequency duration sample_rate default_amplitude
      = Ok buf /\
    write_container 1 2 sample_rate buf = Ok file /\
    files fs1' !! filename = Some file /\
    files fs2' !! filename = Some file /\
    create_wav_file libm_sin fs1' filename frequency duration sample_rate = Ok fs1'.
Proof.
  intros H1 H2.
  apply create_wav_file_ok in H1. destruct H1 as (buf & file & Hgen & Hwr & Hw & ->).
  apply create_wav_file_ok in H2. destruct H2 as (buf2 & file2 & Hgen2 & _ & Hw2 & ->).
  assert (buf2 = buf) as -> by congruence.
  assert (file2 = file) as -> by congruence.
  exists buf, file. split; [exact Hgen |]. split; [exact Hw |].
  split; [apply files_write_file |]. split; [apply files_write_file |].
  unfold create_wav_file. rewrite Hgen. cbn [bind write_file writable].
  rewrite Hwr, Hw. cbn [bind]. f_equal.
  unfold write_file. cbn [files writable]. f_equal. apply insert_insert_eq.
Qed.

Lemma runs_are_deterministic_witness :
  let fs1' := after empty_disk
                (create_wav_file sin_approx empty_disk "tick.wav"
                   (b64 100) (b64 0.01) 1000) in
  let fs2' := after used_disk
                (create_wav_file sin_approx used_disk "tick.wav"
                   (b64 100) (b64 0.01) 1000) in
  exists buf file,
    generate_sine_wave sin_approx (b64 100) (b64 0.01) 1000 default_amplitude
      = Ok buf /\
    write_container 1 2 1000 buf = Ok file /\
    files fs1' !! "tick.wav"%string = Some file /\
    files fs2' !! "tick.wav"%string = Some file /\
    create_wav_file sin_approx fs1' "tick.wav" (b64 100) (b64 0.01) 1000 = Ok fs1'.
Proof.
  intros fs1' fs2'.
  apply (runs_are_deterministic sin_approx "tick.wav" (b64 100) (b64 0.01) 1000
           empty_disk used_disk fs1' fs2').
  - vm_compute. reflexivity.
  - vm_compute. reflexivity.
Defined.

(** * Further properties of the synthesizer *)

Lemma quotient_zero (c : Z) : 0 < c -> quotient 0 c = S754_zero false.
Proof. destruct c; intros H; try lia. reflexivity. Qed.

Lemma fmul_zero_r (x : f64) (s : bool) :
  fmul x (S754_zero s) = S754_nan \/ exists s', fmul x (S754_zero s) = S754_zero s'.
Proof. destruct x; simpl; eauto. Qed.

Lemma fmul_zero_scale (s : bool) :
  int (fmul (S754_zero s) (b64 32767)) = Ok 0.
Proof. destruct s; reflexivity. Qed.

(** X1.  Every tone starts on a silent sample.  When the fade is at least
    one sample long, sample 0 is 0 whenever the loop body returns it,
    whatever the frequency, the amplitude and the value of the sine: a
    buffer that is returned and is not empty starts with the sample 0.  The
    loop body does return sample 0 when the phase cannot overflow
    (frequency within [F], [7 x F < 2^53], amplitude within 1, sine within
    [-1, 1]). *)
Theorem first_sample_silent (libm_sin : f64 -> f64)
    (frequency duration : f64) (sample_rate : Z) (amplitude : f64)
    (fade : Z) :
  fade_samples sample_rate = Ok fade -> 0 < fade ->
  (forall n v,
     pcm_value libm_sin frequency sample_rate amplitude n 0 = Ok v -> v = 0) /\
  (forall n buf,
     num_samples sample_rate duration = Ok n -> 0 < n ->
     generate_sine_wave libm_sin frequency duration sample_rate amplitude
       = Ok buf ->
     nth_error (unpack_samples buf) 0 = Some 0) /\
  (forall n F,
     sine_in_range libm_sin -> within 1 amplitude = true ->
     within F frequency = true -> 0 <= F -> 7 * F < 2 ^ 53 ->
     0 < sample_rate < 2 ^ 53 -> 0 < n ->
     pcm_value libm_sin frequency sample_rate amplitude n 0 = Ok 0).
Proof.
  intros Hfade Hpos.
  assert (Hzero : forall n v,
     pcm_value libm_sin frequency sample_rate amplitude n 0 = Ok v -> v = 0).
  { intros n v Hv.
    destruct (pcm_value_inv _ _ _ _ _ _ _ Hv) as (t & e & _ & He & _ & Hint).
    unfold envelope in He. rewrite Hfade in He. cbn [bind] in He.
    assert (Hr : ramp_of fade n 0 = fade_in).
    { unfold ramp_of. destruct (Z.ltb_spec 0 fade); [reflexivity | lia]. }
    rewrite Hr in He. unfold truediv in He.
    destruct (Z.eqb_spec fade 0); [lia |].
    rewrite (quotient_zero fade Hpos) in He. injection He as <-.
    match type of Hint with
    | int (fmul (fmul ?x _) _) = _ =>
        destruct (fmul_zero_r x false) as [E | (s' & E)]; rewrite E in Hint
    end.
    - discriminate.
    - rewrite fmul_zero_scale in Hint. congruence. }
  split; [exact Hzero |]. split.
  - intros n buf Hn Hn0 Hgen.
    destruct (generate_sine_wave_inv _ _ _ _ _ _ Hgen)
      as (n' & vs & Hn' & Hvs & _ & _ & ->).
    assert (n' = n) as -> by congruence.
    destruct (generated_sample _ _ _ _ _ _ 0 Hvs ltac:(lia)) as (v & Hv & Hnth).
    rewrite (Hzero n v Hv) in Hnth. exact Hnth.
  - intros n F Hsin Ha HF HF0 HF7 Hsr Hn.
    destruct (pcm_value_defined libm_sin Hsin frequency sample_rate amplitude
                n 0 F 1) as (v & Hv & _); try assumption; try lia.
    rewrite Hv. f_equal. apply (Hzero n v Hv).
Qed.

Lemma first_sample_silent_witness :
  (forall n v,
     pcm_value sin_approx (b64 1000) 44100 (b64 0.5) n 0 = Ok v -> v = 0) /\
  (forall n buf,
     num_samples 44100 (b64 0.05) = Ok n -> 0 < n ->
     generate_sine_wave sin_approx (b64 1000) (b64 0.05) 44100 (b64 0.5)
       = Ok buf ->
     nth_error (unpack_samples buf) 0 = Some 0) /\
  (forall n F,
     sine_in_range sin_approx -> within 1 (b64 0.5) = true ->
     within F (b64 1000) = true -> 0 <= F -> 7 * F < 2 ^ 53 ->
     0 < 44100 < 2 ^ 53 -> 0 < n ->
     pcm_value sin_approx (b64 1000) 44100 (b64 0.5) n 0 = Ok 0).
Proof.
  apply (first_sample_silent sin_approx (b64 1000) (b64 0.05) 44100 (b64 0.5)
           220).
  - reflexivity.
  - lia.
Defined.

(** Where the phase overflows, sample 0 is not returned: 2 pi 1e308 is an
    infinity, its product with 0.0 a NaN. *)
Example first_sample_of_huge_frequency :
  pcm_value sin_approx (b64 1e308) 1000 (b64 0.5) 1 0 = Raise ValueError.
Proof. vm_compute. reflexivity. Qed.

Lemma int_opp (x : f64) (v : Z) : int x = Ok v -> int (SFopp x) = Ok (- v).
Proof.
  destruct x as [s | s | | s m e]; intros H; try discriminate.
  - rewrite int_zero in H. injection H as <-. reflexivity.
  - rewrite int_finite in H. injection H as <-. simpl SFopp.
    rewrite int_finite. f_equal. destruct s; simpl; lia.
Qed.

Lemma pcm_value_opp (libm_sin : f64 -> f64) (frequency : f64)
    (sample_rate : Z) (amplitude : f64) (n i v : Z) :
  pcm_value libm_sin frequency sample_rate amplitude n i = Ok v ->
  pcm_value libm_sin frequency sample_rate (SFopp amplitude) n i = Ok (- v).
Proof.
  intros Hv.
  destruct (pcm_value_inv _ _ _ _ _ _ _ Hv) as (t & e & Ht & He & Hf & Hint).
  rewrite (pcm_value_intro libm_sin _ _ _ n i t e Ht He Hf).
  rewrite !fmul_opp_l. apply int_opp. exact Hint.
Qed.

(** X4.  Negating the amplitude negates every sample: truncation toward
    zero is symmetric.  For an amplitude within 1 (and the sine within
    [-1, 1]), when the synthesizer returns a buffer for the amplitude [a] it
    returns one for [-a] too, which holds the opposite of each sample. *)
Theorem opposite_amplitude_opposite_samples (libm_sin : f64 -> f64)
    (frequency duration : f64) (sample_rate : Z) (amplitude : f64)
    (buf : bytes) :
  sine_in_range libm_sin -> within 1 amplitude = true ->
  generate_sine_wave libm_sin frequency duration sample_rate amplitude
    = Ok buf ->
  exists buf',
    generate_sine_wave libm_sin frequency duration sample_rate (SFopp amplitude)
      = Ok buf' /\
    unpack_samples buf' = map Z.opp (unpack_samples buf).
Proof.
  intros Hsin Ha Hgen.
  destruct (generate_sine_wave_inv _ _ _ _ _ _ Hgen)
    as (n & vs & Hn & Hvs & _ & _ & ->).
  assert (Hvs' : for_each (pcm_value libm_sin frequency sample_rate
                             (SFopp amplitude) n) (range n)
                 = Ok (map Z.opp vs)).
  { clear Hgen Hn. revert vs Hvs.
    induction (range n) as [| i l IH]; intros vs Hvs; simpl in Hvs |- *.
    - injection Hvs as <-. reflexivity.
    - destruct (pcm_value libm_sin frequency sample_rate amplitude n i)
        as [v | e] eqn:Hv; cbn [bind] in Hvs; [| discriminate].
      destruct (for_each _ l) as [vs' | e] eqn:Hl; cbn [bind] in Hvs;
        [| discriminate].
      injection Hvs as <-. rewrite (pcm_value_opp _ _ _ _ _ _ _ Hv).
      cbn [bind]. rewrite (IH vs' eq_refl). reflexivity. }
  assert (Hall : Forall (fun v => -32768 <= v <= 32767) (map Z.opp vs)).
  { apply List.Forall_forall. intros v' Hin. apply in_map_iff in Hin.
    destruct Hin as (v & <- & Hin).
    destruct (In_nth_error _ _ Hin) as (k & Hk).
    destruct (for_each_nth _ _ _ Hvs) as [Hlen Hnth].
    destruct (nth_error (range n) k) as [i |] eqn:Hki.
    - destruct (Hnth k i Hki) as (v0 & Hv0 & Hkv).
      assert (v0 = v) as -> by congruence.
      apply nth_error_In in Hki. apply range_In in Hki.
      pose proof (pcm_value_range libm_sin Hsin _ _ _ _ _ _ Ha Hki Hv0). lia.
    - apply nth_error_None in Hki.
      assert (k < length vs)%nat by (apply nth_error_Some; congruence). lia. }
  exists (concat (map (le_bytes 2) (map Z.opp vs))).
  split; [apply (generate_sine_wave_intro _ _ _ _ _ n _ Hn Hvs' Hall) |].
  apply unpack_samples_concat. exact Hall.
Qed.

Lemma opposite_amplitude_opposite_samples_witness :
  exists buf',
    generate_sine_wave sin_approx (b64 100) (b64 0.01) 1000 (SFopp (b64 0.5))
      = Ok buf' /\
    unpack_samples buf' =
      map Z.opp
        (unpack_samples
           (concat (map (le_bytes 2) [0; 1923; 6228; 9343; 7695; 0;
                                      -7695; -9343; -6228; -1923]))).
Proof.
  apply (opposite_amplitude_opposite_samples sin_approx (b64 100) (b64 0.01)
           1000 (b64 0.5)).
  - exact sin_approx_range.
  - reflexivity.
  - vm_compute. reflexivity.
Defined.

(** The sample rates from 0 to 199, one by one. *)
Lemma fade_samples_low_rates :
  forallb (fun sample_rate =>
             match fade_samples sample_rate with
             | Ok fade => fade <=? 0
             | Raise _ => false
             end) (range 200) = true.
Proof. vm_compute. reflexivity. Qed.

Lemma fade_samples_threshold (sample_rate fade : Z) :
  fade_samples sample_rate = Ok fade ->
  (sample_rate < 200 -> fade <= 0) /\ (200 <= sample_rate -> 1 <= fade).
Proof.
  intros Hfade.
  destruct (fade_samples_inv _ _ Hfade) as (rate & Hr & Hint & _).
  destruct (float_of_int_sign _ _ Hr) as (Hf & Hs & _).
  split; intros Hsr.
  - destruct (Z_lt_le_dec sample_rate 0) as [Hneg | Hnn].
    + replace (sample_rate <? 0) with true in Hs by (symmetry; apply Z.ltb_lt; lia).
      pose proof (fmul_sign rate (b64 0.005) true false Hf eq_refl Hs eq_refl)
        as Hsp.
      apply (int_sign _ _ _ Hsp Hint).
    + pose proof fade_samples_low_rates as Hall.
      rewrite forallb_forall in Hall.
      specialize (Hall sample_rate ltac:(apply range_In; lia)).
      rewrite Hfade in Hall. apply Z.leb_le in Hall. exact Hall.
  - replace (sample_rate <? 0) with false in Hs by (symmetry; apply Z.ltb_ge; lia).
    pose proof (float_of_int_at_least sample_rate 200 rate ltac:(lia) Hsr Hr)
      as Hge.
    assert (Hp : at_least 1 (fmul rate (b64 0.005)) = true).
    { change (b64 0.005) with (S754_finite false 5764607523034235 (-60)).
      apply (fmul_at_least 200 1); try assumption; try lia. reflexivity. }
    pose proof (fmul_sign rate (b64 0.005) false false Hf eq_refl Hs eq_refl)
      as Hsp.
    apply (int_at_least 1 _ _ ltac:(lia) Hp Hsp Hint).
Qed.

(** X5.  Below 200 Hz there is no fade and no division by zero.  The fade
    length [int(sample_rate * 0.005)] is computed for every sample rate that
    converts to a float, and is at least one sample exactly when the sample
    rate is 200 or more; for any smaller sample rate neither branch of the
    envelope is taken and every sample of the loop keeps the factor 1.0. *)
Theorem low_rate_no_fade (sample_rate n i : Z) (rate : f64) :
  float_of_int sample_rate = Ok rate ->
  exists fade,
    fade_samples sample_rate = Ok fade /\
    (1 <= fade <-> 200 <= sample_rate) /\
    (sample_rate < 200 -> 0 <= i < n ->
     ramp_of fade n i = sustain /\
     envelope sample_rate n i = Ok (b64 1.0)).
Proof.
  intros Hr.
  destruct (fade_samples_defined _ _ Hr) as (fade & Hfade & _).
  destruct (fade_samples_threshold _ _ Hfade) as [Hlow Hhigh].
  exists fade. split; [exact Hfade |]. split.
  - split; [| exact Hhigh].
    intros H. destruct (Z_lt_le_dec sample_rate 200) as [Hl | Hl];
      [specialize (Hlow Hl); lia | exact Hl].
  - intros Hsr Hi. specialize (Hlow Hsr).
    assert (E : ramp_of fade n i = sustain).
    { unfold ramp_of.
      destruct (Z.ltb_spec i fade); [lia |].
      destruct (Z.gtb_spec i (n - fade)); [lia | reflexivity]. }
    split; [exact E |]. unfold envelope. rewrite Hfade. cbn [bind].
    rewrite E. reflexivity.
Qed.

Lemma low_rate_no_fade_witness :
  exists fade,
    fade_samples 199 = Ok fade /\
    (1 <= fade <-> 200 <= 199) /\
    (199 < 200 -> 0 <= 0 < 9 ->
     ramp_of fade 9 0 = sustain /\ envelope 199 9 0 = Ok (b64 1.0)).
Proof.
  apply (low_rate_no_fade 199 9 0 (b64 199)).
  reflexivity.
Defined.

(** X6.  Only sample 0 can be silenced by the envelope: for every other
    sample of the loop the envelope factor is strictly positive (and at
    most 1), so the fade-out ramp never reaches 0 and no quotient
    underflows. *)
Theorem envelope_positive_after_first (sample_rate n i : Z) (rate : f64) :
  float_of_int sample_rate = Ok rate ->
  0 < i < n ->
  exists e,
    envelope sample_rate n i = Ok e /\
    finite e = true /\ (0 < f64_value e <= 1)%Q.
Proof.
  intros Hr Hi.
  destruct (fade_samples_defined _ _ Hr) as (fade & Hfade & _ & Hbound).
  destruct (envelope_defined _ n i _ Hfade ltac:(lia)) as (e & He & Hw & _ & Hcase).
  exists e. split; [exact He |]. split; [apply (within_finite _ _ Hw) |].
  split; [| apply (within_value _ _ Hw)].
  assert (Hsmall : Z.abs fade < 2 ^ 1074).
  { eapply Z.lt_trans; [exact Hbound | reflexivity]. }
  pose proof (ramp_of_cases fade n i) as Hramp.
  assert (Hpos : forall a, 0 < a < fade -> (0 < f64_value (quotient a fade))%Q).
  { intros a Ha.
    destruct (quotient_within a fade 1 ltac:(lia) ltac:(lia) ltac:(lia)
                ltac:(lia)) as [Hwq _].
    destruct (quotient_positive a fade ltac:(lia) ltac:(lia))
      as [Hinf | (m & e' & Hq)].
    - rewrite Hinf in Hwq. discriminate.
    - rewrite Hq. apply magnitude_value_pos. }
  destruct (ramp_of fade n i); subst e.
  - apply Hpos. lia.
  - apply Hpos. lia.
  - vm_compute. reflexivity.
Qed.

Lemma envelope_positive_after_first_witness :
  exists e,
    envelope 44100 2205 2204 = Ok e /\
    finite e = true /\ (0 < f64_value e <= 1)%Q.
Proof.
  apply (envelope_positive_after_first 44100 2205 2204 (b64 44100)).
  - reflexivity.
  - lia.
Defined.

(** X7.  The two ramps mirror each other.  When the tone holds at least two
    fade lengths, the sample [i] places before the end has the envelope
    factor of the sample [i] places after the start, for 0 < i <
    fade_samples; the end itself (i = 0) is outside the buffer, which is why
    the fade-out stops at 1/fade_samples and not at 0. *)
Theorem ramps_mirror (sample_rate n i fade : Z) :
  fade_samples sample_rate = Ok fade ->
  2 * fade <= n ->
  0 < i < fade ->
  envelope sample_rate n (n - i) = envelope sample_rate n i /\
  envelope sample_rate n i = Ok (quotient i fade).
Proof.
  intros Hfade Hn Hi.
  destruct (envelope_defined _ n i _ Hfade ltac:(lia)) as (e & He & _ & _ & Hcase).
  destruct (envelope_defined _ n (n - i) _ Hfade ltac:(lia))
    as (e' & He' & _ & _ & Hcase').
  assert (E1 : ramp_of fade n i = fade_in).
  { unfold ramp_of. destruct (Z.ltb_spec i fade); [reflexivity | lia]. }
  assert (E2 : ramp_of fade n (n - i) = fade_out).
  { unfold ramp_of. destruct (Z.ltb_spec (n - i) fade); [lia |].
    destruct (Z.gtb_spec (n - i) (n - fade)); [reflexivity | lia]. }
  rewrite E1 in Hcase. rewrite E2 in Hcase'.
  replace (n - (n - i)) with i in Hcase' by lia.
  rewrite He, He'. subst e e'. split; reflexivity.
Qed.

Lemma ramps_mirror_witness :
  envelope 44100 2205 (2205 - 50) = envelope 44100 2205 50 /\
  envelope 44100 2205 50 = Ok (quotient 50 220).
Proof.
  apply (ramps_mirror 44100 2205 50 220).
  - reflexivity.
  - lia.
  - lia.
Defined.

Lemma envelope_head (sample_rate n1 n2 i fade : Z) :
  fade_samples sample_rate = Ok fade ->
  i < fade \/ (i <= n1 - fade /\ i <= n2 - fade) ->
  envelope sample_rate n1 i = envelope sample_rate n2 i.
Proof.
  intros Hfade H. unfold envelope, ramp_of. rewrite Hfade. cbn [bind].
  destruct (Z.ltb_spec i fade); [reflexivity |].
  destruct H as [H | [H1 H2]]; [lia |].
  destruct (Z.gtb_spec i (n1 - fade)); [lia |].
  destruct (Z.gtb_spec i (n2 - fade)); [lia |].
  reflexivity.
Qed.

(** X8.  The head of a tone does not depend on its duration.  Two buffers
    returned for tones that differ only in duration have the same sample at
    every index that lies in the fade-in, or before the fade-out of both:
    lengthening a tone changes only its tail.  The sample counts are the
    ones line 24 computes. *)
Theorem head_independent_of_duration (libm_sin : f64 -> f64)
    (frequency duration1 duration2 : f64) (sample_rate : Z) (amplitude : f64)
    (n1 n2 fade i : Z) (buf1 buf2 : bytes) :
  generate_sine_wave libm_sin frequency duration1 sample_rate amplitude
    = Ok buf1 ->
  generate_sine_wave libm_sin frequency duration2 sample_rate amplitude
    = Ok buf2 ->
  num_samples sample_rate duration1 = Ok n1 ->
  num_samples sample_rate duration2 = Ok n2 ->
  fade_samples sample_rate = Ok fade ->
  0 <= i < n1 -> 0 <= i < n2 ->
  i < fade \/ (i <= n1 - fade /\ i <= n2 - fade) ->
  exists v,
    nth_error (unpack_samples buf1) (Z.to_nat i) = Some v /\
    nth_error (unpack_samples buf2) (Z.to_nat i) = Some v.
Proof.
  intros Hgen1 Hgen2 Hn1 Hn2 Hfade Hi1 Hi2 Hhead.
  destruct (generate_sine_wave_inv _ _ _ _ _ _ Hgen1)
    as (m1 & vs1 & Hm1 & Hvs1 & _ & _ & ->).
  destruct (generate_sine_wave_inv _ _ _ _ _ _ Hgen2)
    as (m2 & vs2 & Hm2 & Hvs2 & _ & _ & ->).
  assert (m1 = n1) as -> by congruence.
  assert (m2 = n2) as -> by congruence.
  destruct (generated_sample _ _ _ _ _ _ i Hvs1 Hi1) as (v1 & Hv1 & Hnth1).
  destruct (generated_sample _ _ _ _ _ _ i Hvs2 Hi2) as (v2 & Hv2 & Hnth2).
  exists v1. split; [exact Hnth1 |]. rewrite Hnth2. f_equal.
  unfold pcm_value in Hv1, Hv2.
  rewrite (envelope_head sample_rate n1 n2 i fade Hfade Hhead) in Hv1.
  congruence.
Qed.

Lemma head_independent_of_duration_witness :
  exists v,
    nth_error (unpack_samples
                 (concat (map (le_bytes 2)
                            [0; 1923; 6228; 9343; 7695; 0;
                             -7695; -9343; -6228; -1923])))
              (Z.to_nat 3) = Some v /\
    nth_error (unpack_samples
                 (concat (map (le_bytes 2)
                            [0; 1923; 6228; 9343; 7695; 0;
                             -9619; -15572; -15572; -9619; 0;
                             9619; 15572; 15572; 9619; 0;
                             -7695; -9343; -6228; -1923])))
              (Z.to_nat 3) = Some v.
Proof.
  apply (head_independent_of_duration sin_approx (b64 100) (b64 0.01)
           (b64 0.02) 1000 (b64 0.5) 10 20 5 3).
  - vm_compute. reflexivity.
  - vm_compute. reflexivity.
  - reflexivity.
  - reflexivity.
  - reflexivity.
  - lia.
  - lia.
  - left. lia.
Defined.

(** The tail does depend on it: the rounded count of 0.35 s at 44100 Hz is
    15434 samples, so its sample 15215 is in the fade-out. *)
Example tail_depends_on_duration :
  num_samples 44100 (b64 0.35) = Ok 15434 /\
  ramp_of 220 15434 15215 = fade_out /\
  num_samples 44100 (b64 0.5) = Ok 22050 /\
  ramp_of 220 22050 15215 = sustain.
Proof. repeat split. Qed.

Lemma truncate_below_one (x : Q) : truncate x <= 0 <-> (x < 1)%Q.
Proof.
  destruct (Qlt_le_dec x 0) as [Hx | Hx].
  - destruct (truncate_toward_zero x) as [_ Hneg]. specialize (Hneg ltac:(lra)).
    split; [intros _; lra |]. intros _.
    destruct (Z_le_gt_dec (truncate x) 0) as [H | H]; [exact H |]. exfalso.
    assert (Hq : (inject_Z 0 <= inject_Z (truncate x - 1))%Q)
      by (rewrite <- Zle_Qle; lia).
    change (inject_Z 0) with 0%Q in Hq. lra.
  - destruct (truncate_toward_zero x) as [Hpos _]. specialize (Hpos Hx).
    split; intros H.
    + assert (Hq : (inject_Z (truncate x + 1) <= inject_Z 1)%Q)
        by (rewrite <- Zle_Qle; lia).
      change (inject_Z 1) with 1%Q in Hq. lra.
    + destruct (Z_le_gt_dec (truncate x) 0) as [H0 | H0]; [exact H0 |]. exfalso.
      assert (Hq : (inject_Z 1 <= inject_Z (truncate x))%Q)
        by (rewrite <- Zle_Qle; lia).
      change (inject_Z 1) with 1%Q in Hq. lra.
Qed.

(** X10.  A tone is empty exactly when its rounded product is below one
    sample.  A buffer that is returned is the empty byte string if and only
    if the binary64 product sample_rate x duration is below 1: so for a
    sample rate of 0 (no division by zero is reached), for a duration that
    is not positive with a positive rate, and for a positive duration too
    short for one sample. *)
Theorem empty_iff_under_one_sample (libm_sin : f64 -> f64)
    (frequency duration : f64) (sample_rate : Z) (amplitude : f64)
    (buf : bytes) :
  generate_sine_wave libm_sin frequency duration sample_rate amplitude
    = Ok buf ->
  exists rate,
    float_of_int sample_rate = Ok rate /\
    finite (fmul rate duration) = true /\
    (buf = [] <-> (f64_value (fmul rate duration) < 1)%Q).
Proof.
  intros Hgen.
  destruct (generated_buffer_shape _ _ _ _ _ _ Hgen) as [L (n & Hn & C)].
  destruct (num_samples_inv _ _ _ Hn) as (rate & Hr & Hf & Hnv).
  exists rate. split; [exact Hr |]. split; [exact Hf |].
  rewrite <- truncate_below_one, <- Hnv. split.
  - intros ->. cbn [length unpack_samples] in *. lia.
  - intros H0. destruct buf; [reflexivity |]. cbn [length] in L. lia.
Qed.

Lemma empty_iff_under_one_sample_witness :
  exists rate,
    float_of_int 0 = Ok rate /\
    finite (fmul rate (b64 0.05)) = true /\
    (@nil byte = [] <-> (f64_value (fmul rate (b64 0.05)) < 1)%Q).
Proof.
  apply (empty_iff_under_one_sample sin_approx (b64 1000) (b64 0.05) 0
           (b64 0.5) []).
  reflexivity.
Defined.

(** The product is the rounded one: 3 x 0.3333333333333333 is below 1, its
    binary64 value is 1.0, and the buffer holds one sample. *)
Example one_sample_by_rounding :
  (inject_Z 3 * f64_value (b64 0.3333333333333333) < 1)%Q /\
  fmul (b64 3) (b64 0.3333333333333333) = b64 1.0 /\
  sample_count (generate_sine_wave sin_approx (b64 1) (b64 0.3333333333333333) 3
                  (b64 0.5)) = Ok 1.
Proof. split; [reflexivity |]. split; vm_compute; reflexivity. Qed.

(** * Further properties of the writer *)





(** The exceptions of the synthesizer reach the caller before any file is
    opened. *)
Example create_wav_file_overflow :
  create_wav_file sin_approx empty_disk "tick.wav" (b64 1000) (b64 1e308) 44100
    = Raise OverflowError /\
  create_wav_file sin_approx empty_disk "tick.wav" (b64 1e308) (b64 0.001) 1000
    = Raise ValueError.
Proof. split; vm_compute; reflexivity. Qed.



(** X14.  What [create_wav_file] writes can be read back: after a successful
    call the file is a well-formed container of 44 header bytes plus the
    generated buffer, and the reader returns one channel, two bytes per
    sample, the sample rate given, and the generated buffer as frames. *)
Theorem written_file_reads_back (libm_sin : f64 -> f64) (fs fs' : file_system)
    (filename : string) (frequency duration : f64) (sample_rate : Z) :
  create_wav_file libm_sin fs filename frequency duration sample_rate = Ok fs' ->
  exists buf file,
    generate_sine_wave libm_sin frequency duration sample_rate default_amplitude
      = Ok buf /\
    files fs' !! filename = Some file /\
    Z.of_nat (length file) = 44 + Z.of_nat (length buf) /\
    declared_riff_size file = Z.of_nat (length file) - 8 /\
    read_container file =
      Some {| c_channels := 1; c_sample_width := 2;
              c_sample_rate := sample_rate; c_frames := buf |}.
Proof.
  intros Hrun. apply create_wav_file_ok in Hrun.
  destruct Hrun as (buf & file & Hgen & _ & Hw & ->).
  exists buf, file. split; [exact Hgen |].
  split; [apply files_write_file |].
  pose proof (write_container_ok _ _ _ _ _ Hw) as Hfits.
  rewrite (write_container_fits _ _ _ _ Hfits) in Hw.
  assert (E : file = header_of 1 2 sample_rate (Z.of_nat (length buf)) ++ buf)
    by congruence.
  subst file. clear Hw.
  destruct (declared_lengths 1 2 sample_rate buf Hfits) as (_ & Hriff & Hlen).
  cbv zeta in Hriff, Hlen.
  split; [exact Hlen |]. split; [rewrite Hriff, Hlen; lia |].
  now apply read_written.
Qed.

Lemma written_file_reads_back_witness :
  let fs' := after empty_disk
               (create_wav_file sin_approx empty_disk "tick.wav"
                  (b64 100) (b64 0.01) 1000) in
  exists buf file,
    generate_sine_wave sin_approx (b64 100) (b64 0.01) 1000 default_amplitude
      = Ok buf /\
    files fs' !! "tick.wav"%string = Some file /\
    Z.of_nat (length file) = 44 + Z.of_nat (length buf) /\
    declared_riff_size file = Z.of_nat (length file) - 8 /\
    read_container file =
      Some {| c_channels := 1; c_sample_width := 2;
              c_sample_rate := 1000; c_frames := buf |}.
Proof.
  intros fs'.
  apply (written_file_reads_back sin_approx empty_disk fs' "tick.wav"
           (b64 100) (b64 0.01) 1000).
  vm_compute. reflexivity.
Defined.

(** X15.  A tone without samples still gives a file.  When line 24 yields a
    sample count <= 0 (a duration <= 0, or any duration whose rounded
    product with the sample rate is below 1), with a writable path and a
    sample rate the header can hold, [create_wav_file] succeeds and writes
    the bare 44-byte header, whose declared data length is 0; this holds for
    any sine. *)
Theorem empty_tone_header_only (libm_sin : f64 -> f64) (fs : file_system)
    (filename : string) (frequency duration : f64) (sample_rate n : Z) :
  num_samples sample_rate duration = Ok n -> n <= 0 ->
  0 < sample_rate < 2147483648 ->
  writable fs filename = true ->
  let file := header_of 1 2 sample_rate 0 in
  create_wav_file libm_sin fs filename frequency duration sample_rate
    = Ok (write_file fs filename file) /\
  length file = 44%nat /\
  declared_data_length file = 0.
Proof.
  intros Hn Hn0 Hsr Hwr file.
  assert (Hfits : header_fits 1 2 sample_rate []).
  { unfold header_fits. cbn [length]. lia. }
  split; [| split].
  - unfold create_wav_file.
    rewrite (generate_sine_wave_no_samples _ _ _ _ _ n Hn Hn0). cbn [bind].
    rewrite Hwr, (write_container_fits _ _ _ _ Hfits). cbn [bind length].
    now rewrite app_nil_r.
  - reflexivity.
  - destruct (declared_lengths 1 2 sample_rate [] Hfits) as (Hd & _).
    cbn [length] in Hd. rewrite app_nil_r in Hd. exact Hd.
Qed.

Lemma empty_tone_header_only_witness :
  let file := header_of 1 2 44100 0 in
  create_wav_file sin_approx empty_disk "tick.wav" (b64 1000) (b64 (-0.05)) 44100
    = Ok (write_file empty_disk "tick.wav" file) /\
  length file = 44%nat /\
  declared_data_length file = 0.
Proof.
  apply (empty_tone_header_only sin_approx empty_disk "tick.wav" (b64 1000)
           (b64 (-0.05)) 44100 (-2205)).
  - reflexivity.
  - lia.
  - lia.
  - reflexivity.
Defined.

(** No header-only file where the count overflows or rounds up to 1. *)
Example no_header_only_file :
  create_wav_file sin_approx empty_disk "tick.wav" (b64 1000) (b64 (-1e308)) 44100
    = Raise OverflowError /\
  num_samples 3 (b64 0.3333333333333333) = Ok 1.
Proof. split; vm_compute; reflexivity. Qed.

(** * Further properties of the driver *)


















(** The five sample counts, as line 24 computes them. *)
Example main_tone_lengths :
  map (fun t => num_samples default_sample_rate (snd t)) tones
  = [Ok 2205; Ok 3528; Ok 5292; Ok 1764; Ok 2646].
Proof. reflexivity. Qed.



